(** * Attribute filtering for synchronization: mixer/blender_data/filter.py

    A shallow embedding of the filter classes, of [FilterStack] and of
    [SynchronizedProperties], followed by the properties the design
    document states about them. *)

From stdpp Require Import base option list strings gmap sets relations.

Set Default Proof Using "Type".
Set Warnings "-register-all,-clear-no-such-hyp".

(** ** Host object model *)

(** An RNA struct definition, as [x.bl_rna] delivers it. [rna_key] stands for
    the identity of the underlying struct, which is what [==], [in] and the
    hashing of dictionary keys compare. [base] is [b.base.bl_rna], or [None]
    for a root. In the host the [bl_rna] attribute of a struct definition is
    that definition itself, so type arguments are given as their [BlRna]. *)
Inductive BlRna : Type :=
  MkRna { rna_key : nat; base : option BlRna }.

Definition bl_rna_of (t : BlRna) : BlRna := t.

Definition key_of (o : option BlRna) : option nat := rna_key <$> o.

Definition rna_eqb (a b : BlRna) : bool := bool_decide (rna_key a = rna_key b).

(** [x in types] on a Python list of struct definitions. *)
Definition rna_in (x : BlRna) (types : list BlRna) : bool :=
  existsb (rna_eqb x) types.

(** A property definition, element of [bl_rna.properties]. [bl_rna] is the
    definition of the property's own kind (StringProperty, PointerProperty,
    CollectionProperty ...), [srna] the struct attached to it, if any. *)
Record Property : Type := MkProperty {
  identifier : string;
  bl_rna : BlRna;
  srna : option BlRna
}.

(** ** Effects: the logger and exceptions *)

Inductive Exn : Type :=
  | ValueError (msg : string)
  | AttributeError (msg : string).

(** A computation delivers the warnings it logged, in order, and either the
    exception that ended it or its value. *)
Definition Run (A : Type) : Type := list string * (Exn + A).

#[global] Instance Run_ret : MRet Run := λ A x, ([], inr x).

#[global] Instance Run_bind : MBind Run := λ A B f m,
  match m with
  | (w, inl e) => (w, inl e)
  | (w, inr a) => let '(w', r) := f a in (w ++ w', r)
  end.

Definition raise {A} (e : Exn) : Run A := ([], inl e).

Definition logger_warning (msg : string) : Run unit := ([msg], inr tt).

(** [for x in xs: s = body(x, s)] *)
Fixpoint for_each {A S} (xs : list A) (body : A → S → Run S) (s : S) : Run S :=
  match xs with
  | [] => mret s
  | x :: xs' => s' ← body x s; for_each xs' body s'
  end.

(** [for x in xs: body(x)] *)
Definition for_each_ {A} (xs : list A) (body : A → Run unit) : Run unit :=
  for_each xs (λ x _, body x) tt.

(** ** Filters *)

Definition DEBUG : bool := true.

(** Names of properties that are always excluded *)
Definition _exclude_names : gset string :=
  list_to_set [ "type_info"; "depsgraph"; "rna_type"; "is_evaluated";
    "original"; "users"; "use_fake_user"; "tag"; "is_library_indirect";
    "library"; "override_library"; "preview"; "mixer_uuid" ].

(** The argument of [TypeFilter.__init__]: one type or an iterable of types. *)
Inductive TypesArg : Type :=
  | OneType (t : BlRna)
  | ManyTypes (types : list BlRna).

Definition TypeFilter_init (types : TypesArg) : list BlRna :=
  let types := match types with ManyTypes l => l | OneType t => [t] end in
  bl_rna_of <$> types.

(** The argument of [NameFilter.__init__]: a set, a string or anything else,
    here a list. [list(names)] enumerates a set in an order of its own. *)
Inductive NamesArg : Type :=
  | NamesSet (names : gset string)
  | NamesStr (names : string)
  | NamesList (names : list string).

Definition NameFilter_init (names : NamesArg) : list string :=
  match names with
  | NamesSet s => elements s
  | NamesStr s => [s]
  | NamesList l => l
  end.

(** The filter classes, each with its constructor state. *)
Inductive Filter : Type :=
  | TypeFilterIn (_types : list BlRna)
  | TypeFilterOut (_types : list BlRna)
  | CollectionFilterOut (_types : list BlRna)
  | FuncFilterOut
  | NameFilterOut (_names : list string)
  | NameFilterIn (_names : list string).

Definition is_active (f : Filter) : bool := true.

Definition unknown_warning (unknown : string) : string :=
  "Internal error: Filtering unknown property " +:+ unknown +:+ ". Check spelling".

(** A value of a [FilterSet]: the annotation promises an iterable of
    filters, [FilterStack.apply] also accepts a single filter. *)
Inductive FilterEntry : Type :=
  | OneFilter (f : Filter)
  | ManyFilters (fs : list Filter).

(** A layer as [FilterStack.append] stores it: keyed by [bl_rna], with
    [None] for the entry that applies to every type. *)
Abbreviation FilterSet := (gmap (option nat) FilterEntry).
Abbreviation FilterStack := (list FilterSet).

(** [Properties = Dict[PropertyName, Property]], in insertion order. *)
Abbreviation Properties := (list (string * Property)).

(** What the host and the imported modules provide:
    [mixer.blender_data.types.is_pointer_to], the struct definitions
    [T.CollectionProperty.bl_rna] and [T.BlendData.bl_rna], the properties
    [bl_rna.properties] of a struct definition, and the dictionary
    [mixer.blender_data.blenddata.collection_name_to_type]. *)
Class Host : Type := MkHost {
  is_pointer_to : Property → BlRna → bool;
  CollectionProperty : BlRna;
  BlendData : BlRna;
  rna_properties : BlRna → list Property;
  collection_name_to_type : gmap string BlRna
}.

Section Model.
Context `{!Host}.

Definition matches (_types : list BlRna) (bl_rna_property : Property) : bool :=
  rna_in (bl_rna bl_rna_property) _types
  || existsb id (is_pointer_to bl_rna_property <$> _types).

Definition TypeFilterIn_apply (_types : list BlRna) (properties : list Property)
  : list Property :=
  filter (λ p, matches _types p) properties.

Definition TypeFilterOut_apply (_types : list BlRna) (properties : list Property)
  : list Property :=
  filter (λ p, negb (matches _types p)) properties.

(** [p.srna and p.srna.bl_rna not in self._types] *)
Definition srna_kept (_types : list BlRna) (p : Property) : bool :=
  match srna p with
  | None => false
  | Some s => negb (rna_in (bl_rna_of s) _types)
  end.

Definition CollectionFilterOut_keep (_types : list BlRna) (p : Property) : bool :=
  negb (rna_eqb (bl_rna p) CollectionProperty) || srna_kept _types p.

Definition CollectionFilterOut_apply (_types : list BlRna)
    (properties : list Property) : list Property :=
  filter (λ p, CollectionFilterOut_keep _types p) properties.

(** [set(self._names) - _exclude_names], filtered and walked as a set is. *)
Definition unknowns_of (_names : list string) (properties : list Property)
  : list string :=
  let identifiers := identifier <$> properties in
  let local_exclusions : gset string := list_to_set _names ∖ _exclude_names in
  filter (λ name, name ∉ identifiers) (elements local_exclusions).

Definition check_unknown (_names : list string) (properties : list Property)
  : Run unit :=
  for_each_ (unknowns_of _names properties)
    (λ unknown, logger_warning (unknown_warning unknown)).

Definition NameFilterOut_apply (_names : list string) (properties : list Property)
  : Run (list Property) :=
  (if DEBUG then check_unknown _names properties else mret tt) ;;
  mret (filter (λ p, identifier p ∉ _names) properties).

Definition NameFilterIn_apply (_names : list string) (properties : list Property)
  : Run (list Property) :=
  (if DEBUG then check_unknown _names properties else mret tt) ;;
  mret (filter (λ p, identifier p ∈ _names) properties).

(** [filter_.apply(properties)]: method lookup on the filter's class.
    [FuncFilterOut] inherits from [Filter] only, which has no [apply]. *)
Definition Filter_apply (filter_ : Filter) (properties : list Property)
  : Run (list Property) :=
  match filter_ with
  | TypeFilterIn tys => mret (TypeFilterIn_apply tys properties)
  | TypeFilterOut tys => mret (TypeFilterOut_apply tys properties)
  | CollectionFilterOut tys => mret (CollectionFilterOut_apply tys properties)
  | FuncFilterOut =>
      raise (AttributeError "'FuncFilterOut' object has no attribute 'apply'")
  | NameFilterOut names => NameFilterOut_apply names properties
  | NameFilterIn names => NameFilterIn_apply names properties
  end.

(** ** FilterSet and FilterStack *)

(** The generator [bases], for a struct definition: it yields [b], its
    bases from the nearest on, then [None]. *)
Fixpoint bases (b : BlRna) : list (option BlRna) :=
  Some b :: match base b with
            | None => [None]
            | Some b' => bases b'
            end.

Definition filters_of_entry (filters : FilterEntry) : list Filter :=
  match filters with
  | ManyFilters fs => fs
  | OneFilter f => [f]
  end.

Definition FilterStack_apply (_filter_stack : FilterStack) (bl_rna : BlRna)
    (properties : list Property) : Run (list Property) :=
  for_each (bases bl_rna) (λ class_ properties,
    let bl_rna := bl_rna_of <$> class_ in
    for_each _filter_stack (λ filter_set properties,
      let filters := default (ManyFilters []) (filter_set !! key_of bl_rna) in
      let filters := filters_of_entry filters in
      for_each filters (λ filter_ properties,
        Filter_apply filter_ properties) properties) properties) properties.

(** [{None if k is None else k.bl_rna: v for k, v in filter_set.items()}]:
    a later item replaces an earlier one with the same key. *)
Definition rekey (items : list (option BlRna * FilterEntry)) : FilterSet :=
  foldl (λ d kv, <[key_of (bl_rna_of <$> kv.1) := kv.2]> d) ∅ items.

Definition FilterStack_append (_filter_stack : FilterStack)
    (filter_set : list (option BlRna * FilterEntry)) : FilterStack :=
  _filter_stack ++ [rekey filter_set].

(** ** SynchronizedProperties *)

(** [d[k] = v]: a present key keeps its place and takes the new value. *)
Fixpoint dict_set (d : Properties) (k : string) (v : Property) : Properties :=
  match d with
  | [] => [(k, v)]
  | (k', v') :: d' =>
      if decide (k' = k) then (k, v) :: d' else (k', v') :: dict_set d' k v
  end.

(** [{p.identifier: p for p in filtered_properties}] *)
Definition dict_of_properties (filtered_properties : list Property) : Properties :=
  foldl (λ d p, dict_set d (identifier p) p) [] filtered_properties.

Record SynchronizedProperties : Type := MkSP {
  _properties : gmap nat Properties;
  _filter_stack : FilterStack;
  _unhandled_bpy_data_collection_names : option (list string)
}.

Definition SynchronizedProperties_init (filter_stack : FilterStack)
  : SynchronizedProperties :=
  {| _properties := ∅;
     _filter_stack := filter_stack;
     _unhandled_bpy_data_collection_names := None |}.

(** The body of [properties] from the cache lookup on. The value comes
    with the instance as the call leaves it; a call that raises leaves the
    instance as it found it. *)
Definition properties_for (self : SynchronizedProperties) (bl_rna : BlRna)
  : Run (Properties * SynchronizedProperties) :=
  match _properties self !! rna_key bl_rna with
  | None =>
      filtered_properties ←
        FilterStack_apply (_filter_stack self) bl_rna (rna_properties bl_rna);
      let bl_rna_properties := dict_of_properties filtered_properties in
      mret (bl_rna_properties,
            {| _properties := <[rna_key bl_rna := bl_rna_properties]> (_properties self);
               _filter_stack := _filter_stack self;
               _unhandled_bpy_data_collection_names :=
                 _unhandled_bpy_data_collection_names self |})
  | Some bl_rna_properties => mret (bl_rna_properties, self)
  end.

(** [properties(bl_rna_property=None, bpy_type=None)]; the value is the
    sequence of items of the mapping, or the empty list. *)
Definition properties (self : SynchronizedProperties)
    (bl_rna_property : option Property) (bpy_type : option BlRna)
  : Run (Properties * SynchronizedProperties) :=
  match bl_rna_property, bpy_type with
  | None, None => mret ([], self)
  | Some _, Some _ =>
      raise (ValueError "Exactly one of bl_rna and bpy_type must be provided")
  | Some p, None => properties_for self (bl_rna p)
  | None, Some t => properties_for self (bl_rna_of t)
  end.

Definition unhandled_bpy_data_collection_names (self : SynchronizedProperties)
  : Run (list string * SynchronizedProperties) :=
  match _unhandled_bpy_data_collection_names self with
  | None =>
      '(items, self) ← properties self None (Some BlendData);
      let handled : gset string := list_to_set (items.*1) in
      let names := elements (dom collection_name_to_type ∖ handled) in
      mret (names,
            {| _properties := _properties self;
               _filter_stack := _filter_stack self;
               _unhandled_bpy_data_collection_names := Some names |})
  | Some names => mret (names, self)
  end.

End Model.

(** ** The evaluation as the design document words it *)

Module Design.
Section Design.
Context `{!Host}.

(** [t, base(t), base(base(t)), ...] *)
Fixpoint ancestors (t : BlRna) : list BlRna :=
  t :: match base t with
       | None => []
       | Some b => ancestors b
       end.

Definition Wildcard : option BlRna := None.

(** The AttributeChain of [t]: its ancestors, most specific first, then the
    Wildcard. *)
Definition AttributeChain (t : BlRna) : list (option BlRna) :=
  (Some <$> ancestors t) ++ [Wildcard].

(** [filtersFor(type)]: the layer's filters for a type, empty if absent. *)
Definition filtersFor (layer : FilterSet) (type : option BlRna) : list Filter :=
  match layer !! key_of type with
  | None => []
  | Some (OneFilter f) => [f]
  | Some (ManyFilters fs) => fs
  end.

(** Every filter met on the walk: chain outer, layers inner, in order. *)
Definition walk (stack : FilterStack) (t : BlRna) : list Filter :=
  ancestor ← AttributeChain t; layer ← stack; filtersFor layer ancestor.

(** Each filter's output becomes the next filter's input. *)
Fixpoint apply_in_sequence (fs : list Filter) (attributes : list Property)
  : Run (list Property) :=
  match fs with
  | [] => mret attributes
  | f :: fs' => Filter_apply f attributes ≫= apply_in_sequence fs'
  end.

Definition evaluate (stack : FilterStack) (t : BlRna) (attributes : list Property)
  : Run (list Property) :=
  apply_in_sequence (walk stack t) attributes.

End Design.
End Design.

(** ** A small host, for concrete evaluations *)

Module Example.

Definition ID : BlRna := MkRna 1 None.
Definition Object : BlRna := MkRna 2 (Some ID).
Definition Camera : BlRna := MkRna 3 (Some ID).
Definition Scene : BlRna := MkRna 4 (Some ID).
Definition Brush : BlRna := MkRna 5 (Some ID).
Definition MeshVertex : BlRna := MkRna 6 None.
Definition PropertyRna : BlRna := MkRna 10 None.
Definition StringProperty : BlRna := MkRna 11 (Some PropertyRna).
Definition PointerProperty : BlRna := MkRna 12 (Some PropertyRna).
Definition CollectionPropertyRna : BlRna := MkRna 13 (Some PropertyRna).
Definition BlendDataRna : BlRna := MkRna 20 None.

Definition string_prop (name : string) : Property :=
  {| identifier := name; bl_rna := StringProperty; srna := None |}.

Definition pointer_prop (name : string) (t : BlRna) : Property :=
  {| identifier := name; bl_rna := PointerProperty; srna := Some t |}.

Definition collection_prop (name : string) (t : BlRna) : Property :=
  {| identifier := name; bl_rna := CollectionPropertyRna; srna := Some t |}.

(** A collection property to which no struct is attached. *)
Definition bare_collection_prop (name : string) : Property :=
  {| identifier := name; bl_rna := CollectionPropertyRna; srna := None |}.

Definition object_properties : list Property :=
  [ string_prop "name"; pointer_prop "data" ID; string_prop "users";
    collection_prop "material_slots" Object; string_prop "dimensions" ].

Definition blenddata_properties : list Property :=
  [ string_prop "filepath"; collection_prop "cameras" Camera;
    collection_prop "scenes" Scene; collection_prop "brushes" Brush ].

#[local] Instance host : Host := {|
  is_pointer_to p t :=
    rna_eqb (bl_rna p) PointerProperty
    && match srna p with Some s => rna_eqb s t | None => false end;
  CollectionProperty := CollectionPropertyRna;
  BlendData := BlendDataRna;
  rna_properties t :=
    if rna_eqb t BlendDataRna then blenddata_properties
    else if rna_eqb t Object then object_properties
    else [];
  collection_name_to_type :=
    {[ "cameras" := Camera; "scenes" := Scene; "brushes" := Brush ]}
|}.

(** Layers in the manner of [default_exclusions] and [safe_blenddata]. *)
Definition default_exclusions : list (option BlRna * FilterEntry) :=
  [ (None, ManyFilters [ TypeFilterOut (TypeFilter_init (OneType MeshVertex));
                         NameFilterOut (NameFilter_init (NamesSet _exclude_names)) ]);
    (Some BlendDataRna,
      ManyFilters [ NameFilterOut (NameFilter_init (NamesList ["brushes"; "actions"]));
                    TypeFilterIn (TypeFilter_init (OneType CollectionPropertyRna)) ]);
    (Some Object,
      ManyFilters [ NameFilterOut (NameFilter_init
                      (NamesList ["dimensions"; "material_slots"])) ]) ].

Definition safe_exclusions : list (option BlRna * FilterEntry) := [].

Definition safe_blenddata : list (option BlRna * FilterEntry) :=
  [ (Some BlendDataRna,
      ManyFilters [ NameFilterIn (NameFilter_init (NamesList ["cameras"; "scenes"])) ]) ].

Definition safe_filter : FilterStack :=
  FilterStack_append
    (FilterStack_append (FilterStack_append [] default_exclusions) safe_exclusions)
    safe_blenddata.

Definition safe_properties : SynchronizedProperties :=
  SynchronizedProperties_init safe_filter.

(** [NameFilterOut({b})] for every type in the first layer, and
    [NameFilterIn({a, b, c})] for [Object] in the second. *)
Definition abc_stack : FilterStack :=
  FilterStack_append
    (FilterStack_append []
       [ (None, OneFilter (NameFilterOut (NameFilter_init (NamesSet {["b"]})))) ])
    [ (Some Object,
        ManyFilters [ NameFilterIn (NameFilter_init (NamesSet {["a"; "b"; "c"]})) ]) ].

Definition abcd : list Property := string_prop <$> ["a"; "b"; "c"; "d"].

(** A layer that makes every evaluation raise. *)
Definition func_layer : list (option BlRna * FilterEntry) :=
  [ (None, OneFilter FuncFilterOut) ].

End Example.

(** ** Notions the statements use *)

Section Notions.
Context `{!Host}.

(** What a filter keeps, property by property. *)
Definition keeps (f : Filter) (p : Property) : bool :=
  match f with
  | TypeFilterIn tys => matches tys p
  | TypeFilterOut tys => negb (matches tys p)
  | CollectionFilterOut tys => CollectionFilterOut_keep tys p
  | FuncFilterOut => true
  | NameFilterOut names => bool_decide (identifier p ∉ names)
  | NameFilterIn names => bool_decide (identifier p ∈ names)
  end.

Definition keeps_all (fs : list Filter) (p : Property) : bool :=
  forallb (λ f, keeps f p) fs.

(** What a filter delivers when applied alone, nothing if it raises. *)
Definition kept_alone (f : Filter) (l : list Property) : list Property :=
  match Filter_apply f l with
  | (_, inr out) => out
  | (_, inl _) => []
  end.

(** [s] is one of [types], as [in] decides it. *)
Definition one_of (s : BlRna) (types : list BlRna) : Prop :=
  ∃ t, t ∈ types ∧ rna_key s = rna_key t.

Definition is_collection (p : Property) : Prop :=
  rna_key (bl_rna p) = rna_key CollectionProperty.

(** A computation that ends with an exception. *)
Definition raises {A} (r : Run A) : Prop := ∃ e, r.2 = inl e.

(** What can happen to an instance during its lifetime: its two queries are
    called, and the filter stack it refers to, which it shares with whoever
    built it, receives a new layer. *)
Inductive Call : Type :=
  | CallProperties (bl_rna_property : option Property) (bpy_type : option BlRna)
  | CallUnhandled
  | CallAppend (filter_set : list (option BlRna * FilterEntry)).

Definition after_call (self : SynchronizedProperties) (c : Call)
  : SynchronizedProperties :=
  match c with
  | CallProperties p t =>
      match properties self p t with
      | (_, inr (_, self')) => self'
      | (_, inl _) => self
      end
  | CallUnhandled =>
      match unhandled_bpy_data_collection_names self with
      | (_, inr (_, self')) => self'
      | (_, inl _) => self
      end
  | CallAppend filter_set =>
      {| _properties := _properties self;
         _filter_stack := FilterStack_append (_filter_stack self) filter_set;
         _unhandled_bpy_data_collection_names :=
           _unhandled_bpy_data_collection_names self |}
  end.

Definition after_calls (self : SynchronizedProperties) (calls : list Call)
  : SynchronizedProperties :=
  foldl after_call self calls.

End Notions.

(** ** The tables of the module *)

(** The struct definitions of [bpy.types] that the tables name, besides
    [T.BlendData] and [T.CollectionProperty]. *)
Class BpyTypes : Type := MkBpyTypes {
  T_ActionGroup : BlRna;
  T_Bone : BlRna;
  T_Collection : BlRna;
  T_CompositorNodeRLayers : BlRna;
  T_CurveMapPoint : BlRna;
  T_Image : BlRna;
  T_KeyingSets : BlRna;
  T_LayerCollection : BlRna;
  T_GreasePencil : BlRna;
  T_Mesh : BlRna;
  T_MeshPolygon : BlRna;
  T_MeshVertex : BlRna;
  T_Node : BlRna;
  T_NodeLink : BlRna;
  T_NodeSocket : BlRna;
  T_NodeTree : BlRna;
  T_Object : BlRna;
  T_PoseBone : BlRna;
  T_RenderSettings : BlRna;
  T_Scene : BlRna;
  T_SceneEEVEE : BlRna;
  T_SequenceEditor : BlRna;
  T_ViewLayer : BlRna
}.

Section Tables.
Context `{!Host, !BpyTypes}.

(** [TypeFilterOut(t)], [NameFilterOut("name")], [NameFilterOut([...])],
    [NameFilterOut({...})] and the like, as the tables write them. *)
Definition type_out (t : BlRna) : Filter := TypeFilterOut (TypeFilter_init (OneType t)).
Definition type_in (t : BlRna) : Filter := TypeFilterIn (TypeFilter_init (OneType t)).
Definition name_out (name : string) : Filter :=
  NameFilterOut (NameFilter_init (NamesStr name)).
Definition names_out (names : list string) : Filter :=
  NameFilterOut (NameFilter_init (NamesList names)).
Definition name_in (name : string) : Filter :=
  NameFilterIn (NameFilter_init (NamesStr name)).
Definition names_in (names : list string) : Filter :=
  NameFilterIn (NameFilter_init (NamesList names)).

(** Members of bpy.data that will be totally excluded from synchronization. *)
Definition blenddata_exclude : list string :=
  [ "brushes"; "actions"; "screens"; "window_managers"; "workspaces" ].

(** Per-type property exclusions, in the order of the dictionary display. *)
Definition default_exclusions : list (option BlRna * FilterEntry) :=
  [ (None, ManyFilters [ type_out T_MeshVertex; type_out T_PoseBone;
                         NameFilterOut (NameFilter_init (NamesSet _exclude_names)) ]);
    (Some T_ActionGroup, ManyFilters [ name_out "channels" ]);
    (Some BlendData, ManyFilters [ names_out blenddata_exclude;
                                   type_in CollectionProperty ]);
    (Some T_Bone, ManyFilters [ name_out "parent" ]);
    (Some T_Collection, ManyFilters [ name_out "all_objects" ]);
    (Some T_CompositorNodeRLayers, ManyFilters [ name_out "scene" ]);
    (Some T_CurveMapPoint, ManyFilters [ name_out "select" ]);
    (Some T_Image, ManyFilters [ name_out "pixels";
                                 names_out [ "packed_file"; "packed_files" ] ]);
    (Some T_KeyingSets, ManyFilters [ name_out "paths" ]);
    (Some T_LayerCollection, ManyFilters [ name_out "collection"; name_out "children" ]);
    (Some T_GreasePencil, ManyFilters [ name_in "name" ]);
    (Some T_Mesh, ManyFilters [ name_in "name" ]);
    (Some T_MeshPolygon, ManyFilters [ name_out "area" ]);
    (Some T_MeshVertex, ManyFilters [ name_out "groups" ]);
    (Some T_Node, ManyFilters [ names_out [ "internal_links"; "dimensions" ] ]);
    (Some T_NodeLink,
      ManyFilters [ names_out [ "from_node"; "from_socket"; "to_node"; "to_socket";
                                "is_hidden" ] ]);
    (Some T_NodeSocket,
      ManyFilters [ names_out [ "bl_idname"; "identifier"; "is_linked"; "is_output";
                                "link_limit"; "name"; "node"; "type" ] ]);
    (Some T_NodeTree, ManyFilters [ names_out [ "view_center"; "name" ] ]);
    (Some T_Object,
      ManyFilters [ names_out [ "dimensions"; "material_slots"; "field";
                                "active_shape_key"; "vertex_groups"; "bound_box" ] ]);
    (Some T_RenderSettings, ManyFilters [ name_out "stereo_views" ]);
    (Some T_Scene,
      ManyFilters [ names_out [ "frame_preview_start"; "frame_preview_end"; "objects";
                                "tool_settings"; "node_tree"; "view_layers";
                                "rigidbody_world" ] ]);
    (Some T_SceneEEVEE, ManyFilters [ names_out [ "gi_cache_info" ] ]);
    (Some T_SequenceEditor, ManyFilters [ names_out [ "active_strip"; "sequences_all" ] ]);
    (Some T_ViewLayer,
      ManyFilters [ name_out "freestyle_settings"; name_out "objects";
                    name_out "active_layer_collection" ]) ].

Definition test_filter : FilterStack := FilterStack_append [] default_exclusions.

Definition test_properties : SynchronizedProperties :=
  SynchronizedProperties_init test_filter.

Definition safe_exclusions : list (option BlRna * FilterEntry) := [].

(** The bpy.data collections checked for creation, removal and rename. *)
Definition safe_blenddata_collections : list string :=
  [ "cameras"; "collections"; "grease_pencils"; "images"; "lattices"; "lights";
    "materials"; "meshes"; "metaballs"; "objects"; "scenes"; "sounds"; "worlds" ].

Definition safe_blenddata : list (option BlRna * FilterEntry) :=
  [ (Some BlendData, ManyFilters [ names_in safe_blenddata_collections ]) ].

Definition safe_filter : FilterStack :=
  FilterStack_append
    (FilterStack_append (FilterStack_append [] default_exclusions) safe_exclusions)
    safe_blenddata.

(** The default context used for synchronization. *)
Definition safe_properties : SynchronizedProperties :=
  SynchronizedProperties_init safe_filter.

(** The struct definitions that are keys of [default_exclusions]. *)
Definition table_types : list BlRna :=
  omap fst default_exclusions.

End Tables.

(** The classes of filters that define [apply]. *)
Definition has_apply (f : Filter) : bool :=
  match f with
  | FuncFilterOut => false
  | _ => true
  end.

(** The value of a computation that ended well. *)
Definition value_of {A} (r : Run A) : option A :=
  match r.2 with
  | inr a => Some a
  | inl _ => None
  end.

(** The filters that the layers of a stack hold for one entry of the chain,
    in the order of the layers. *)
Definition filters_at (stack : FilterStack) (entry : option BlRna) : list Filter :=
  layer ← stack; Design.filtersFor layer entry.

(** All the filters a dictionary of filters holds, entry after entry. *)
Definition table_filters (filter_set : list (option BlRna * FilterEntry)) : list Filter :=
  kv ← filter_set; filters_of_entry kv.2.

(** Struct definitions for the tables, on the small host. *)
Module ExampleTypes.

#[local] Instance types : BpyTypes := {|
  T_ActionGroup := MkRna 101 None;
  T_Bone := MkRna 102 None;
  T_Collection := MkRna 103 (Some Example.ID);
  T_CompositorNodeRLayers := MkRna 104 None;
  T_CurveMapPoint := MkRna 105 None;
  T_Image := MkRna 106 (Some Example.ID);
  T_KeyingSets := MkRna 107 None;
  T_LayerCollection := MkRna 108 None;
  T_GreasePencil := MkRna 109 (Some Example.ID);
  T_Mesh := MkRna 110 (Some Example.ID);
  T_MeshPolygon := MkRna 111 None;
  T_MeshVertex := Example.MeshVertex;
  T_Node := MkRna 113 None;
  T_NodeLink := MkRna 114 None;
  T_NodeSocket := MkRna 115 None;
  T_NodeTree := MkRna 116 (Some Example.ID);
  T_Object := Example.Object;
  T_PoseBone := MkRna 118 None;
  T_RenderSettings := MkRna 119 None;
  T_Scene := Example.Scene;
  T_SceneEEVEE := MkRna 121 None;
  T_SequenceEditor := MkRna 122 None;
  T_ViewLayer := MkRna 123 None
|}.

End ExampleTypes.

(** ** The depsgraph handler: mixer/handlers_generic.py *)

Module Handlers.

(** A datablock, by the identity that [in] and sets of datablocks compare. *)
Abbreviation Datablock := nat.

(** What the handler reads from Blender: the [id.original] of each update
    of the evaluated depsgraph, in order; [bpy.context.selected_objects]
    when the context has it; the [mode] and the [data] of a datablock
    (asked of selected objects only). The changeset is what
    [bpy_data_proxy.update] returns for the arguments it is given. *)
Record Changeset : Type := MkChangeset {
  creations : list nat;
  removals : list nat;
  renames : list nat;
  updates : list nat
}.

Record Blender : Type := MkBlender {
  depsgraph_updates : list Datablock;
  selected_objects : option (list Datablock);
  mode : Datablock → string;
  data : Datablock → option Datablock;
  proxy_update : gset Datablock → bool → Changeset
}.

(** The two flags of [share_data] the handler reads and writes. *)
Record ShareData : Type := MkShareData {
  skip_next_depsgraph_update : bool;
  pending_test_update : bool
}.

Inductive Arg : Type :=
  | ArgBool (b : bool)
  | ArgDatablock (d : Datablock).

(** What the handler does to the outside, in order: log records and calls
    of the proxy, of the diff and of [data_api]. *)
Inductive Event : Type :=
  | LogDebug (msg : string) (args : list Arg)
  | LogInfo (msg : string) (args : list Arg)
  | AppendDelayedUpdates (delayed_updates : gset Datablock)
  | Diff
  | Update (updates : gset Datablock) (process_delayed_updates : bool)
  | SendDataCreations (creations : list nat)
  | SendDataRemovals (removals : list nat)
  | SendDataRenames (renames : list nat)
  | SendDataUpdates (updates : list nat).

(** [datablock in selected_objects and datablock.mode != "OBJECT" and
    datablock.data is not None] *)
Definition is_delayed (blender : Blender) (selected_objects : list Datablock)
    (datablock : Datablock) : bool :=
  bool_decide (datablock ∈ selected_objects)
  && negb (bool_decide (mode blender datablock = "OBJECT"))
  && bool_decide (data blender datablock ≠ None).

(** The loop that fills [delayed_updates]. *)
Definition delayed_of (blender : Blender) (selected_objects : list Datablock)
    (updates : gset Datablock) : gset Datablock :=
  foldl (λ delayed_updates datablock,
           if is_delayed blender selected_objects datablock
           then match data blender datablock with
                | Some d => {[d]} ∪ ({[datablock]} ∪ delayed_updates)
                | None => {[datablock]} ∪ delayed_updates
                end
           else delayed_updates)
        ∅ (elements updates).

Definition send_scene_data_to_server (blender : Blender) (share_data : ShareData)
  : ShareData * list Event :=
  let log_entry :=
    [ LogDebug "send_scene_data_to_server(): skip_next_depsgraph_update %s, pending_test_update %s"
        [ ArgBool (skip_next_depsgraph_update share_data);
          ArgBool (pending_test_update share_data) ] ] in
  let log_updates :=
    match depsgraph_updates blender with
    | [] => []
    | _ => LogDebug "Current dg updates ..." []
           :: ((λ update, LogDebug " ......%s" [ArgDatablock update])
               <$> depsgraph_updates blender)
    end in
  if negb (pending_test_update share_data) && skip_next_depsgraph_update share_data
  then
    ({| skip_next_depsgraph_update := false;
        pending_test_update := pending_test_update share_data |},
     log_entry ++ log_updates
     ++ [ LogDebug "send_scene_data_to_server canceled (skip_next_depsgraph_update = True) ..." [] ])
  else
    let share_data :=
      {| skip_next_depsgraph_update := skip_next_depsgraph_update share_data;
         pending_test_update := false |} in
    let selected_objects := default [] (selected_objects blender) in
    let updates : gset Datablock := list_to_set (depsgraph_updates blender) in
    let delayed_updates := delayed_of blender selected_objects updates in
    let updates := updates ∖ delayed_updates in
    let process_delayed_updates := bool_decide (delayed_updates = ∅) in
    let delay :=
      if bool_decide (delayed_updates = ∅) then []
      else AppendDelayedUpdates delayed_updates
           :: LogInfo "send_scene_data_to_server. Delaying updates " []
           :: ((λ update, LogInfo "... %s" [ArgDatablock update])
               <$> elements delayed_updates) in
    let changeset := proxy_update blender updates process_delayed_updates in
    (share_data,
     log_entry ++ log_updates ++ delay
     ++ [ Diff;
          Update updates process_delayed_updates;
          SendDataCreations (creations changeset);
          SendDataRemovals (removals changeset);
          SendDataRenames (renames changeset);
          SendDataUpdates (Handlers.updates changeset);
          LogDebug "send_scene_data_to_server: end" [] ]).

(** The events other than log records. *)
Definition is_call (e : Event) : bool :=
  match e with
  | LogDebug _ _ | LogInfo _ _ => false
  | _ => true
  end.

Definition calls_of (events : list Event) : list Event :=
  List.filter is_call events.

(** Two objects and a mesh: object 1 is selected and in edit mode, its
    data is mesh 3; object 2 is in object mode. *)
Definition edit_session : Blender := {|
  depsgraph_updates := [1; 3; 2];
  selected_objects := Some [1; 2];
  mode d := if bool_decide (d = 1) then "EDIT" else "OBJECT";
  data d := if bool_decide (d = 1) then Some 3 else None;
  proxy_update updates process_delayed_updates :=
    {| creations := []; removals := []; renames := []; updates := elements updates |}
|}.

End Handlers.

(** ** Laws of the effects *)

Lemma Run_bind_ret_l {A B} (x : A) (f : A → Run B) : mret x ≫= f = f x.
Proof. unfold mret, mbind, Run_ret, Run_bind. by destruct (f x). Qed.

Lemma Run_bind_ret_r {A} (m : Run A) : m ≫= mret = m.
Proof.
  destruct m as [w [e|a]]; [done|].
  unfold mret, mbind, Run_ret, Run_bind. by rewrite app_nil_r.
Qed.

Lemma Run_bind_assoc {A B C} (m : Run A) (f : A → Run B) (g : B → Run C) :
  (m ≫= f) ≫= g = m ≫= (λ x, f x ≫= g).
Proof.
  destruct m as [w [e|a]]; [done|].
  unfold mbind, Run_bind.
  destruct (f a) as [w1 [e1|b]]; [done|].
  destruct (g b) as [w2 r]. by rewrite app_assoc.
Qed.

Lemma Run_bind_ok {A B} (m : Run A) (f : A → Run B) w a w' r :
  m = (w, inr a) → f a = (w', r) → m ≫= f = (w ++ w', r).
Proof. intros -> Hf. unfold mbind, Run_bind. by rewrite Hf. Qed.

Lemma Run_bind_inv {A B} (m : Run A) (f : A → Run B) w r :
  m ≫= f = (w, r) →
  (∃ e, m = (w, inl e) ∧ r = inl e)
  ∨ (∃ w1 a w2, m = (w1, inr a) ∧ f a = (w2, r) ∧ w = w1 ++ w2).
Proof.
  destruct m as [w1 [e|a]]; unfold mbind, Run_bind.
  - intros [= <- <-]. left. by exists e.
  - destruct (f a) as [w2 r2] eqn:Hf. intros [= <- <-].
    right. by exists w1, a, w2.
Qed.

Lemma Run_bind_ext {A B} (m : Run A) (f g : A → Run B) :
  (∀ x, f x = g x) → m ≫= f = m ≫= g.
Proof.
  intros Hfg. destruct m as [w [e|a]]; [done|].
  unfold mbind, Run_bind. by rewrite Hfg.
Qed.

Lemma for_each_nil {A S} (body : A → S → Run S) (s : S) :
  for_each [] body s = mret s.
Proof. done. Qed.

Lemma for_each_cons {A S} (x : A) (xs : list A) (body : A → S → Run S) (s : S) :
  for_each (x :: xs) body s = body x s ≫= for_each xs body.
Proof. done. Qed.

Lemma for_each_ext {A S} (xs : list A) (body body' : A → S → Run S) (s : S) :
  (∀ x s, body x s = body' x s) → for_each xs body s = for_each xs body' s.
Proof.
  intros Hb. revert s. induction xs as [|x xs IH]; intros s; [done|].
  rewrite !for_each_cons, Hb. by apply Run_bind_ext.
Qed.

Lemma for_each_app {A S} (xs ys : list A) (body : A → S → Run S) (s : S) :
  for_each (xs ++ ys) body s = for_each xs body s ≫= for_each ys body.
Proof.
  revert s. induction xs as [|x xs IH]; intros s.
  - by rewrite for_each_nil, Run_bind_ret_l.
  - rewrite <-app_comm_cons, !for_each_cons, Run_bind_assoc.
    by apply Run_bind_ext.
Qed.

(** Two nested loops walk the concatenation of the inner sequences. *)
Lemma for_each_nested {A B S} (xs : list A) (g : A → list B)
    (body : B → S → Run S) (s : S) :
  for_each xs (λ x s, for_each (g x) body s) s = for_each (xs ≫= g) body s.
Proof.
  revert s. induction xs as [|x xs IH]; intros s; [done|].
  rewrite for_each_cons, bind_cons, for_each_app.
  by apply Run_bind_ext.
Qed.

(** ** Properties of the filters and of the stack *)

(** Induction along the chain of bases. *)
Lemma BlRna_chain_ind (P : BlRna → Prop) :
  (∀ k, P (MkRna k None)) →
  (∀ k b, P b → P (MkRna k (Some b))) →
  ∀ t, P t.
Proof.
  intros Hroot Hderived. fix IH 1. intros [k [b|]].
  - apply Hderived, IH.
  - apply Hroot.
Qed.

Section Facts.
Context `{!Host}.

Lemma bases_AttributeChain (t : BlRna) : bases t = Design.AttributeChain t.
Proof.
  induction t as [k|k b IH] using BlRna_chain_ind; [done|].
  unfold Design.AttributeChain in *. simpl. by rewrite IH.
Qed.

Lemma filters_of_entry_filtersFor (layer : FilterSet) (class_ : option BlRna) :
  filters_of_entry (default (ManyFilters []) (layer !! key_of (bl_rna_of <$> class_)))
  = Design.filtersFor layer class_.
Proof.
  unfold Design.filtersFor.
  replace (key_of (bl_rna_of <$> class_)) with (key_of class_) by by destruct class_.
  by destruct (layer !! key_of class_) as [[f|fs]|].
Qed.

Lemma apply_in_sequence_for_each (fs : list Filter) (l : list Property) :
  Design.apply_in_sequence fs l = for_each fs Filter_apply l.
Proof.
  revert l. induction fs as [|f fs IH]; intros l; [done|].
  rewrite for_each_cons. simpl. by apply Run_bind_ext.
Qed.

(** The nested loops of [FilterStack.apply] apply, one after the other, the
    filters of the walk. *)
Lemma FilterStack_apply_evaluate (stack : FilterStack) (t : BlRna)
    (l : list Property) :
  FilterStack_apply stack t l = Design.evaluate stack t l.
Proof.
  unfold FilterStack_apply, Design.evaluate, Design.walk.
  rewrite apply_in_sequence_for_each, <-bases_AttributeChain.
  rewrite <-for_each_nested. apply for_each_ext. intros class_ props.
  rewrite <-for_each_nested. apply for_each_ext. intros layer props'.
  by rewrite filters_of_entry_filtersFor.
Qed.

(** C1: [FilterStack.apply] walks the chain of [bl_rna] from the type itself
    to its last base and then the [None] entry; for each of them it visits
    the layers in the order they were appended, takes the layer's filters
    for it (none when the layer has no entry, without error) and applies
    them one after the other, each to the output of the one before. *)
Theorem FilterStack_apply_walk (stack : FilterStack) (t : BlRna) (l : list Property) :
  bases t = Design.AttributeChain t
  ∧ FilterStack_apply stack t l = Design.evaluate stack t l.
Proof. split; [apply bases_AttributeChain|apply FilterStack_apply_evaluate]. Qed.

(** *** Filters only remove *)

Lemma check_unknown_ok (names : list string) (l : list Property) :
  check_unknown names l = (unknown_warning <$> unknowns_of names l, inr tt).
Proof.
  unfold check_unknown, for_each_.
  induction (unknowns_of names l) as [|u us IH]; [done|].
  rewrite for_each_cons, fmap_cons.
  by erewrite Run_bind_ok; [|reflexivity|apply IH].
Qed.

Lemma NameFilterOut_apply_ok (names : list string) (l : list Property) :
  NameFilterOut_apply names l
  = (unknown_warning <$> unknowns_of names l,
     inr (filter (λ p, identifier p ∉ names) l)).
Proof.
  unfold NameFilterOut_apply, DEBUG. rewrite check_unknown_ok.
  unfold mbind, Run_bind, mret, Run_ret. by rewrite app_nil_r.
Qed.

Lemma NameFilterIn_apply_ok (names : list string) (l : list Property) :
  NameFilterIn_apply names l
  = (unknown_warning <$> unknowns_of names l,
     inr (filter (λ p, identifier p ∈ names) l)).
Proof.
  unfold NameFilterIn_apply, DEBUG. rewrite check_unknown_ok.
  unfold mbind, Run_bind, mret, Run_ret. by rewrite app_nil_r.
Qed.

Lemma filter_bool_decide {A} (P : A → Prop) `{!∀ x, Decision (P x)} (l : list A) :
  filter (λ x, bool_decide (P x)) l = filter P l.
Proof. apply list_filter_iff. intros x. apply bool_decide_spec. Qed.

(** Every filter class with an [apply] keeps the properties [keeps] says,
    in their order. *)
Lemma Filter_apply_keeps (f : Filter) (l : list Property) :
  f ≠ FuncFilterOut →
  ∃ w, Filter_apply f l = (w, inr (filter (λ p, keeps f p) l)).
Proof.
  intros Hf. destruct f as [tys|tys|tys| |names|names]; simpl; try done.
  - by exists [].
  - by exists [].
  - by exists [].
  - rewrite NameFilterOut_apply_ok, filter_bool_decide. eauto.
  - rewrite NameFilterIn_apply_ok, filter_bool_decide. eauto.
Qed.

Lemma Filter_apply_raises (f : Filter) (l : list Property) w e :
  Filter_apply f l = (w, inl e) → f = FuncFilterOut.
Proof.
  destruct f as [tys|tys|tys| |names|names]; simpl; try done.
  - by rewrite NameFilterOut_apply_ok.
  - by rewrite NameFilterIn_apply_ok.
Qed.

Lemma FuncFilterOut_or_not (f : Filter) : f = FuncFilterOut ∨ f ≠ FuncFilterOut.
Proof. destruct f; by auto. Qed.

Lemma apply_in_sequence_sublist (fs : list Filter) (l : list Property) :
  match Design.apply_in_sequence fs l with
  | (_, inr out) => out `sublist_of` l
  | (_, inl _) => FuncFilterOut ∈ fs
  end.
Proof.
  revert l. induction fs as [|f fs IH]; intros l; simpl; [done|].
  destruct (FuncFilterOut_or_not f) as [->|Hf].
  { simpl. left. }
  destruct (Filter_apply_keeps f l Hf) as [w ->].
  unfold mbind, Run_bind.
  specialize (IH (filter (λ p, keeps f p) l)).
  destruct (Design.apply_in_sequence fs _) as [w' [e|out]].
  - by right.
  - etrans; [done|]. apply sublist_filter.
Qed.

(** C2: the output of [FilterStack.apply] is a subsequence of its input, in
    the input's order; an evaluation delivers no output only when the walk
    meets a [FuncFilterOut], which has no [apply]. *)
Theorem FilterStack_apply_subsequence (stack : FilterStack) (t : BlRna)
    (l : list Property) :
  match FilterStack_apply stack t l with
  | (_, inr out) => out `sublist_of` l
  | (_, inl _) => FuncFilterOut ∈ Design.walk stack t
  end.
Proof.
  rewrite FilterStack_apply_evaluate.
  apply apply_in_sequence_sublist.
Qed.

(** *** Composition of filters *)

Lemma filter_filter_bool {A} (f g : A → bool) (l : list A) :
  filter (λ x, g x) (filter (λ x, f x) l) = filter (λ x, f x && g x) l.
Proof.
  rewrite list_filter_filter. apply list_filter_iff. intros x.
  rewrite andb_True. tauto.
Qed.

Lemma filter_all {A} (P : A → Prop) `{!∀ x, Decision (P x)} (l : list A) :
  (∀ x, P x) → filter P l = l.
Proof.
  intros HP. induction l as [|x l IH]; [done|].
  by rewrite filter_cons_True, IH.
Qed.

Lemma apply_in_sequence_keeps_all (fs : list Filter) (l : list Property) :
  FuncFilterOut ∉ fs →
  ∃ w, Design.apply_in_sequence fs l = (w, inr (filter (λ p, keeps_all fs p) l)).
Proof.
  revert l. induction fs as [|f fs IH]; intros l Hfs.
  - exists []. simpl. unfold keeps_all. simpl.
    by rewrite filter_all.
  - apply not_elem_of_cons in Hfs as [Hf Hfs].
    destruct (Filter_apply_keeps f l) as [w Hw]; [done|].
    destruct (IH (filter (λ p, keeps f p) l) Hfs) as [w' Hw'].
    exists (w ++ w'). simpl. erewrite Run_bind_ok; [|done..].
    by rewrite filter_filter_bool.
Qed.

Lemma keeps_all_Permutation (fs fs' : list Filter) (p : Property) :
  fs ≡ₚ fs' → keeps_all fs p = keeps_all fs' p.
Proof.
  unfold keeps_all. induction 1 as [|f fs fs' _ IH|f g fs|fs1 fs2 fs3 _ IH1 _ IH2].
  - done.
  - simpl. by rewrite IH.
  - simpl. by destruct (keeps f p), (keeps g p).
  - by rewrite IH1.
Qed.

(** The outcome of a walk over filters that all have an [apply] depends on
    which filters are met, not on where they are met. *)
Lemma FilterStack_apply_keeps_all (stack : FilterStack) (t : BlRna)
    (l : list Property) (fs : list Filter) :
  Design.walk stack t ≡ₚ fs → FuncFilterOut ∉ fs →
  ∃ w, FilterStack_apply stack t l = (w, inr (filter (λ p, keeps_all fs p) l)).
Proof.
  intros Hperm Hfs. rewrite FilterStack_apply_evaluate.
  destruct (apply_in_sequence_keeps_all (Design.walk stack t) l) as [w Hw].
  { by rewrite Hperm. }
  exists w. unfold Design.evaluate. rewrite Hw. f_equal. f_equal.
  apply list_filter_iff. intros p. by rewrite (keeps_all_Permutation _ _ _ Hperm).
Qed.

Lemma kept_alone_keeps (f : Filter) (l : list Property) :
  f ≠ FuncFilterOut → kept_alone f l = filter (λ p, keeps f p) l.
Proof.
  intros Hf. unfold kept_alone. by destruct (Filter_apply_keeps f l Hf) as [w ->].
Qed.

(** C3: when the filters met on the walk for a type are [NameFilterIn] of
    the set [{a, b, c}] and [NameFilterOut] of the set [{b}], at whichever
    ancestors and layers they are attached, an input with attributes named
    [a] and [c] comes out as its attributes named [a] or [c], in order: the
    kept names are [{a, c}], and an attribute is kept exactly when each of
    the two filters keeps it alone. *)
Theorem NameFilterIn_NameFilterOut_intersection (stack : FilterStack) (t : BlRna)
    (l : list Property) (a b c : string) :
  let filter_in := NameFilterIn (NameFilter_init (NamesSet {[a; b; c]})) in
  let filter_out := NameFilterOut (NameFilter_init (NamesSet {[b]})) in
  a ≠ b → c ≠ b →
  a ∈ identifier <$> l → c ∈ identifier <$> l →
  Design.walk stack t ≡ₚ [filter_in; filter_out] →
  ∃ w out,
    FilterStack_apply stack t l = (w, inr out)
    ∧ out = filter (λ p, identifier p = a ∨ identifier p = c) l
    ∧ list_to_set (identifier <$> out) =@{gset string} {[a; c]}
    ∧ ∀ p, p ∈ out ↔ p ∈ kept_alone filter_in l ∧ p ∈ kept_alone filter_out l.
Proof.
  intros filter_in filter_out Hab Hcb Ha Hc Hwalk.
  destruct (FilterStack_apply_keeps_all stack t l _ Hwalk) as [w Hw].
  { rewrite !not_elem_of_cons. split_and!; [done..|]. apply not_elem_of_nil. }
  assert (Hkeep : ∀ p, keeps_all [filter_in; filter_out] p
                       ↔ identifier p = a ∨ identifier p = c).
  { intros p. unfold keeps_all, filter_in, filter_out. simpl.
    rewrite andb_True, andb_True, !bool_decide_spec.
    rewrite !elem_of_elements, !elem_of_union, !elem_of_singleton.
    naive_solver. }
  exists w, (filter (λ p, keeps_all [filter_in; filter_out] p) l).
  split; [done|]. split; [by apply list_filter_iff|]. split.
  - apply set_eq. intros x.
    rewrite elem_of_list_to_set, list_elem_of_fmap.
    setoid_rewrite list_elem_of_filter. setoid_rewrite Hkeep.
    apply list_elem_of_fmap in Ha as (pa & -> & Hpa).
    apply list_elem_of_fmap in Hc as (pc & -> & Hpc).
    rewrite elem_of_union, !elem_of_singleton.
    split; [by intros (p & -> & Hp & _)|].
    intros [-> | ->].
    + exists pa. auto.
    + exists pc. auto.
  - intros p. rewrite !kept_alone_keeps by done.
    rewrite !list_elem_of_filter. unfold keeps_all. simpl.
    rewrite !andb_True. naive_solver.
Qed.

(** *** The filter classes one by one *)

Lemma rna_in_one_of (s : BlRna) (types : list BlRna) :
  rna_in s types = true ↔ one_of s types.
Proof.
  unfold rna_in, one_of, rna_eqb. rewrite existsb_exists.
  split; intros (t & Ht & Heq); exists t.
  - apply list_elem_of_In in Ht. by apply bool_decide_eq_true in Heq.
  - split; [by apply list_elem_of_In|by apply bool_decide_eq_true].
Qed.

Lemma CollectionFilterOut_keep_spec (types : list BlRna) (p : Property) :
  CollectionFilterOut_keep types p
  ↔ ¬ is_collection p ∨ ∃ s, srna p = Some s ∧ ¬ one_of s types.
Proof.
  unfold CollectionFilterOut_keep, srna_kept, is_collection, rna_eqb, bl_rna_of.
  rewrite orb_True, negb_True, bool_decide_spec.
  apply or_iff_compat_l. destruct (srna p) as [s|]; simpl.
  - rewrite negb_True, Is_true_true, rna_in_one_of. naive_solver.
  - naive_solver.
Qed.

(** C4, as the code has it: [CollectionFilterOut.apply] keeps every
    attribute that is not a collection, whatever its type, unchanged and in
    order; it drops a collection attribute if and only if no struct is
    attached to it ([srna] is [None]) or the attached struct is one of the
    target types. *)
Theorem CollectionFilterOut_apply_selective (types : list BlRna)
    (l : list Property) :
  let out := CollectionFilterOut_apply types l in
  out `sublist_of` l
  ∧ (∀ p, p ∈ l → ¬ is_collection p → p ∈ out)
  ∧ (∀ p, p ∈ l → is_collection p →
       (p ∉ out ↔ srna p = None ∨ ∃ s, srna p = Some s ∧ one_of s types)).
Proof.
  unfold CollectionFilterOut_apply. split; [apply sublist_filter|].
  split.
  - intros p Hp Hnc. apply list_elem_of_filter. split; [|done].
    apply CollectionFilterOut_keep_spec. by left.
  - intros p Hp Hc. rewrite list_elem_of_filter, CollectionFilterOut_keep_spec.
    destruct (srna p) as [s|] eqn:Hs.
    + split.
      * intros Hout. right. exists s. split; [done|].
        destruct (rna_in s types) eqn:Hin; [by apply rna_in_one_of|].
        exfalso. apply Hout. split; [|done]. right. exists s. split; [done|].
        rewrite <-rna_in_one_of. by rewrite Hin.
      * intros [?|(s' & [= <-] & Hone)]; [done|].
        intros [[?|(s' & [= <-] & Hnone)] _]; done.
    + split; [by left|]. intros _ [[?|(s' & ? & _)] _]; done.
Qed.

Lemma string_length_app (s1 s2 : string) :
  String.length (s1 +:+ s2) = String.length s1 + String.length s2.
Proof. induction s1 as [|c s1 IH]; simpl; [done|by rewrite IH]. Qed.

Lemma string_app_inv_tail (s1 s2 t : string) : s1 +:+ t = s2 +:+ t → s1 = s2.
Proof.
  revert s2. induction s1 as [|c s1 IH]; intros [|c' s2] Heq.
  - done.
  - apply (f_equal String.length) in Heq.
    rewrite !string_length_app in Heq. simpl in Heq. lia.
  - apply (f_equal String.length) in Heq.
    rewrite !string_length_app in Heq. simpl in Heq. lia.
  - change (String c (s1 +:+ t) = String c' (s2 +:+ t)) in Heq.
    injection Heq as -> Heq. f_equal. by apply IH.
Qed.

#[local] Instance unknown_warning_inj : Inj (=) (=) unknown_warning.
Proof.
  intros x y Heq. unfold unknown_warning in Heq.
  apply (inj (String.append _)) in Heq. by apply string_app_inv_tail in Heq.
Qed.

Lemma unknowns_of_spec (names : list string) (l : list Property) (name : string) :
  name ∈ unknowns_of names l
  ↔ name ∈ names ∧ (name ∉ identifier <$> l) ∧ (name ∉ _exclude_names).
Proof.
  unfold unknowns_of. rewrite list_elem_of_filter, elem_of_elements.
  rewrite elem_of_difference, elem_of_list_to_set. tauto.
Qed.

Lemma unknowns_of_NoDup (names : list string) (l : list Property) :
  NoDup (unknowns_of names l).
Proof. unfold unknowns_of. apply NoDup_filter, NoDup_elements. Qed.

(** C8: [NameFilterOut.apply] returns the attributes whose name is not in
    [names], in input order; the warnings it logs are one for each
    configured name that is neither the name of an input attribute nor in
    [_exclude_names], each such name once, and nothing else; the check has
    no part in the returned list. *)
Theorem NameFilterOut_apply_warns_once (names : list string) (l : list Property) :
  ∃ unknowns,
    Filter_apply (NameFilterOut names) l
    = (unknown_warning <$> unknowns, inr (filter (λ p, identifier p ∉ names) l))
    ∧ (∀ name, name ∈ unknowns
         ↔ name ∈ names ∧ (name ∉ identifier <$> l) ∧ (name ∉ _exclude_names))
    ∧ NoDup unknowns
    ∧ NoDup (unknown_warning <$> unknowns).
Proof.
  exists (unknowns_of names l). simpl. split; [apply NameFilterOut_apply_ok|].
  split; [apply unknowns_of_spec|].
  split; [apply unknowns_of_NoDup|].
  apply (NoDup_fmap_2 _), unknowns_of_NoDup.
Qed.

(** C9, as the code has it: [FuncFilterOut] has no [apply]. Applying one
    raises [AttributeError] and delivers no list, and so does a
    [FilterStack.apply] whose walk meets one; the class only inherits
    [is_active], which answers [True]. *)
Theorem FuncFilterOut_has_no_apply (stack : FilterStack) (t : BlRna)
    (l : list Property) :
  FuncFilterOut ∈ Design.walk stack t →
  is_active FuncFilterOut = true
  ∧ Filter_apply FuncFilterOut l
    = ([], inl (AttributeError "'FuncFilterOut' object has no attribute 'apply'"))
  ∧ ∃ w, FilterStack_apply stack t l
    = (w, inl (AttributeError "'FuncFilterOut' object has no attribute 'apply'")).
Proof.
  intros Hin. split; [done|]. split; [done|].
  rewrite FilterStack_apply_evaluate.
  unfold Design.evaluate. revert l.
  induction (Design.walk stack t) as [|f fs IH]; intros l.
  { by apply elem_of_nil in Hin. }
  destruct (FuncFilterOut_or_not f) as [->|Hf].
  { by exists []. }
  apply elem_of_cons in Hin as [?|Hin]; [done|].
  destruct (Filter_apply_keeps f l Hf) as [w Hw].
  destruct (IH Hin (filter (λ p, keeps f p) l)) as [w' Hw'].
  exists (w ++ w'). simpl. by erewrite Run_bind_ok.
Qed.

(** C10: a [NameFilter] built from one string holds that string as its only
    name; built from a set it holds the elements of the set as a list. So
    [NameFilterOut("channels")] removes exactly the attributes named
    [channels]. *)
Theorem NameFilter_init_single_string (l : list Property) :
  (∀ s, NameFilter_init (NamesStr s) = [s])
  ∧ (∀ names : gset string,
       NoDup (NameFilter_init (NamesSet names))
       ∧ ∀ x, x ∈ NameFilter_init (NamesSet names) ↔ x ∈ names)
  ∧ ∃ w, Filter_apply (NameFilterOut (NameFilter_init (NamesStr "channels"))) l
         = (w, inr (filter (λ p, identifier p ≠ "channels") l)).
Proof.
  split; [done|]. split.
  - intros names. simpl. split; [apply NoDup_elements|].
    intros x. apply elem_of_elements.
  - eexists. simpl. rewrite NameFilterOut_apply_ok. f_equal. f_equal.
    apply list_filter_iff. intros p. by rewrite list_elem_of_singleton.
Qed.

(** *** SynchronizedProperties *)

Lemma apply_in_sequence_exn (fs : list Filter) (l : list Property) w e :
  Design.apply_in_sequence fs l = (w, inl e) →
  e = AttributeError "'FuncFilterOut' object has no attribute 'apply'".
Proof.
  revert l w. induction fs as [|f fs IH]; intros l w; simpl; [done|].
  intros [(e' & Hf & [= ->])|(w1 & a & w2 & _ & Hrest & _)]%Run_bind_inv.
  - apply Filter_apply_raises in Hf as Hfunc. subst f. by injection Hf as _ <-.
  - by eapply IH.
Qed.

Lemma FilterStack_apply_exn (stack : FilterStack) (t : BlRna) (l : list Property) w e :
  FilterStack_apply stack t l = (w, inl e) →
  e = AttributeError "'FuncFilterOut' object has no attribute 'apply'".
Proof.
  rewrite FilterStack_apply_evaluate.
  apply apply_in_sequence_exn.
Qed.

(** The two ways [properties_for] ends well: a hit, which runs nothing and
    leaves the instance alone, or a miss, which evaluates and stores. *)
Lemma properties_for_inv (self : SynchronizedProperties) (t : BlRna) w items self' :
  properties_for self t = (w, inr (items, self')) →
  (_properties self !! rna_key t = Some items ∧ w = [] ∧ self' = self)
  ∨ (_properties self !! rna_key t = None
     ∧ ∃ filtered,
         FilterStack_apply (_filter_stack self) t (rna_properties t) = (w, inr filtered)
         ∧ items = dict_of_properties filtered
         ∧ self' = {| _properties := <[rna_key t := items]> (_properties self);
                      _filter_stack := _filter_stack self;
                      _unhandled_bpy_data_collection_names :=
                        _unhandled_bpy_data_collection_names self |}).
Proof.
  unfold properties_for. destruct (_properties self !! rna_key t) as [d|].
  - intros [= <- <- <-]. by left.
  - intros [(e & _ & [=])|(w1 & a & w2 & Hrun & Hret & ->)]%Run_bind_inv.
    injection Hret as <- <- <-. right. split; [done|].
    exists a. by rewrite app_nil_r.
Qed.

Lemma properties_for_hit (self : SynchronizedProperties) (t : BlRna) items :
  _properties self !! rna_key t = Some items →
  properties_for self t = ([], inr (items, self)).
Proof. intros Hhit. unfold properties_for. by rewrite Hhit. Qed.

Lemma properties_for_exn (self : SynchronizedProperties) (t : BlRna) w e :
  properties_for self t = (w, inl e) →
  e = AttributeError "'FuncFilterOut' object has no attribute 'apply'".
Proof.
  unfold properties_for. destruct (_properties self !! rna_key t) as [d|]; [done|].
  intros [(e' & Hrun & [= <-])|(w1 & a & w2 & _ & [=] & _)]%Run_bind_inv.
  by eapply FilterStack_apply_exn.
Qed.

(** C5, as the code has it: [properties] raises [ValueError] if and only if
    both a property and a type are given; called with neither, it returns
    the empty list, logs nothing and leaves the instance as it was. *)
Theorem properties_ValueError_iff_both (self : SynchronizedProperties)
    (bl_rna_property : option Property) (bpy_type : option BlRna) :
  properties self None None = ([], inr ([], self))
  ∧ ((∃ w msg, properties self bl_rna_property bpy_type = (w, inl (ValueError msg)))
     ↔ is_Some bl_rna_property ∧ is_Some bpy_type).
Proof.
  split; [done|]. split.
  - intros (w & msg & Hraise).
    destruct bl_rna_property as [p|], bpy_type as [t|]; simpl in Hraise.
    + by split.
    + by apply properties_for_exn in Hraise.
    + by apply properties_for_exn in Hraise.
    + done.
  - intros [[p ->] [t ->]]. by eexists _, _.
Qed.

Lemma properties_for_keeps_entry (self : SynchronizedProperties) (t : BlRna)
    w items self' (k : nat) d :
  properties_for self t = (w, inr (items, self')) →
  _properties self !! k = Some d → _properties self' !! k = Some d.
Proof.
  intros [(_ & _ & ->)|(Hmiss & filtered & _ & _ & ->)]%properties_for_inv Hk.
  - done.
  - simpl. rewrite lookup_insert_ne; [done|]. intros <-. congruence.
Qed.

Lemma properties_for_keeps_unhandled (self : SynchronizedProperties) (t : BlRna)
    w items self' :
  properties_for self t = (w, inr (items, self')) →
  _unhandled_bpy_data_collection_names self'
  = _unhandled_bpy_data_collection_names self.
Proof.
  by intros [(_ & _ & ->)|(_ & filtered & _ & _ & ->)]%properties_for_inv.
Qed.

Lemma properties_keeps (self : SynchronizedProperties) p t w items self' :
  properties self p t = (w, inr (items, self')) →
  (∀ k d, _properties self !! k = Some d → _properties self' !! k = Some d)
  ∧ _unhandled_bpy_data_collection_names self'
    = _unhandled_bpy_data_collection_names self.
Proof.
  destruct p as [p|], t as [t|]; simpl; intros Hrun.
  - done.
  - split; [intros k d; by eapply properties_for_keeps_entry|].
    by eapply properties_for_keeps_unhandled.
  - split; [intros k d; by eapply properties_for_keeps_entry|].
    by eapply properties_for_keeps_unhandled.
  - by injection Hrun as _ _ <-.
Qed.

Lemma unhandled_inv (self : SynchronizedProperties) w names self' :
  unhandled_bpy_data_collection_names self = (w, inr (names, self')) →
  (_unhandled_bpy_data_collection_names self = Some names ∧ w = [] ∧ self' = self)
  ∨ (_unhandled_bpy_data_collection_names self = None
     ∧ ∃ items self1,
         properties self None (Some BlendData) = (w, inr (items, self1))
         ∧ names = elements (dom collection_name_to_type
                             ∖ (list_to_set items.*1 : gset string))
         ∧ self' = {| _properties := _properties self1;
                      _filter_stack := _filter_stack self1;
                      _unhandled_bpy_data_collection_names := Some names |}).
Proof.
  unfold unhandled_bpy_data_collection_names.
  destruct (_unhandled_bpy_data_collection_names self) as [memo|].
  - intros [= <- <- <-]. by left.
  - intros [(e & _ & [=])|(w1 & [items self1] & w2 & Hrun & Hret & ->)]%Run_bind_inv.
    injection Hret as <- <- <-. right. split; [done|].
    exists items, self1. by rewrite app_nil_r.
Qed.

Lemma after_call_keeps (self : SynchronizedProperties) (c : Call) :
  (∀ k d, _properties self !! k = Some d →
          _properties (after_call self c) !! k = Some d)
  ∧ (∀ names, _unhandled_bpy_data_collection_names self = Some names →
              _unhandled_bpy_data_collection_names (after_call self c) = Some names).
Proof.
  destruct c as [p t| |filter_set]; simpl.
  - destruct (properties self p t) as [w [e|[items self']]] eqn:Hrun; [done|].
    apply properties_keeps in Hrun as [Hentries Hmemo].
    split; [done|]. intros names. by rewrite Hmemo.
  - destruct (unhandled_bpy_data_collection_names self)
      as [w [e|[names' self']]] eqn:Hrun; [done|].
    apply unhandled_inv in Hrun
      as [(_ & _ & ->)|(Hnone & items & self1 & Hrun & _ & ->)]; [done|].
    apply properties_keeps in Hrun as [Hentries _]. simpl.
    split; [done|]. intros names. by rewrite Hnone.
  - done.
Qed.

Lemma after_calls_keeps (self : SynchronizedProperties) (calls : list Call) :
  (∀ k d, _properties self !! k = Some d →
          _properties (after_calls self calls) !! k = Some d)
  ∧ (∀ names, _unhandled_bpy_data_collection_names self = Some names →
              _unhandled_bpy_data_collection_names (after_calls self calls)
              = Some names).
Proof.
  unfold after_calls. revert self.
  induction calls as [|c calls IH]; intros self; [done|]. simpl.
  destruct (IH (after_call self c)) as [IHe IHm].
  destruct (after_call_keeps self c) as [He Hm]. split.
  - intros k d Hk. by apply IHe, He.
  - intros names Hn. by apply IHm, Hm.
Qed.

(** C6: a call of [properties] for a type that ends well leaves the
    mapping it returns in the cache; when the type was not cached, the
    mapping is the one built from the evaluation of the filter stack. From
    then on, whatever calls the instance receives and whatever layers the
    shared stack is given, the entry stays as it is, and every call for a
    type or a property with the same underlying [bl_rna] returns it,
    logging nothing and changing nothing: no filter runs again. *)
Theorem properties_memoized (self : SynchronizedProperties) (t : BlRna)
    w items self1 :
  properties self None (Some t) = (w, inr (items, self1)) →
  (_properties self !! rna_key t = None →
     ∃ filtered,
       FilterStack_apply (_filter_stack self) t (rna_properties t) = (w, inr filtered)
       ∧ items = dict_of_properties filtered)
  ∧ _properties self1 !! rna_key t = Some items
  ∧ ∀ calls,
      let self2 := after_calls self1 calls in
      _properties self2 !! rna_key t = Some items
      ∧ (∀ t', rna_key t' = rna_key t →
           properties self2 None (Some t') = ([], inr (items, self2)))
      ∧ (∀ p, rna_key (bl_rna p) = rna_key t →
           properties self2 (Some p) None = ([], inr (items, self2))).
Proof.
  simpl. unfold bl_rna_of. intros Hrun.
  assert (Hcached : _properties self1 !! rna_key t = Some items).
  { apply properties_for_inv in Hrun
      as [(Hhit & _ & ->)|(_ & filtered & _ & _ & ->)]; [done|].
    simpl. apply lookup_insert_eq. }
  split; [|split; [done|]].
  - intros Hmiss. apply properties_for_inv in Hrun
      as [(Hhit & _ & _)|(_ & filtered & Heval & -> & _)]; [congruence|].
    by exists filtered.
  - intros calls.
    destruct (after_calls_keeps self1 calls) as [Hkeep _].
    apply Hkeep in Hcached. split; [done|]. split.
    + intros t' Hkey. apply properties_for_hit. by rewrite Hkey.
    + intros p Hkey. apply properties_for_hit. by rewrite Hkey.
Qed.

(** C7: when nothing is memoized yet and [properties] for [T.BlendData]
    ends well, [unhandled_bpy_data_collection_names] returns and memoizes
    the keys of [collection_name_to_type] that are not among the names
    [properties] returned, each once; every later call returns the
    memoized list, logging nothing and changing nothing. *)
Theorem unhandled_names_memoized (self : SynchronizedProperties) w items self1 :
  _unhandled_bpy_data_collection_names self = None →
  properties self None (Some BlendData) = (w, inr (items, self1)) →
  ∃ names,
    let self' := {| _properties := _properties self1;
                    _filter_stack := _filter_stack self1;
                    _unhandled_bpy_data_collection_names := Some names |} in
    unhandled_bpy_data_collection_names self = (w, inr (names, self'))
    ∧ NoDup names
    ∧ list_to_set names
      =@{gset string} dom collection_name_to_type ∖ list_to_set items.*1
    ∧ ∀ calls,
        unhandled_bpy_data_collection_names (after_calls self' calls)
        = ([], inr (names, after_calls self' calls)).
Proof.
  intros Hnone Hrun.
  exists (elements (dom collection_name_to_type ∖ (list_to_set items.*1 : gset string))).
  simpl. split; [|split; [apply NoDup_elements|split]].
  - unfold unhandled_bpy_data_collection_names. rewrite Hnone.
    erewrite Run_bind_ok; [|done..]. by rewrite app_nil_r.
  - apply list_to_set_elements_L.
  - intros calls.
    match goal with |- context [after_calls ?s calls] => set (self' := s) end.
    destruct (after_calls_keeps self' calls) as [_ Hmemo].
    unfold unhandled_bpy_data_collection_names at 1.
    by rewrite (Hmemo _ eq_refl).
Qed.

End Facts.

(** ** Concrete evaluations on the small host *)

Section Concrete.
Import Example.
#[local] Existing Instance host.

Lemma NameFilterIn_NameFilterOut_intersection_abcd :
  ∃ w, FilterStack_apply abc_stack Object abcd
       = (w, inr [string_prop "a"; string_prop "c"]).
Proof.
  destruct (NameFilterIn_NameFilterOut_intersection abc_stack Object abcd "a" "b" "c")
    as (w & out & Hrun & Hout & _).
  - done.
  - done.
  - apply (bool_decide_unpack _). by vm_compute.
  - apply (bool_decide_unpack _). by vm_compute.
  - vm_compute. reflexivity.
  - exists w. rewrite Hrun, Hout. by vm_compute.
Defined.

(** A collection attribute with no struct attached is dropped although no
    element type of it is among the target types. *)
Lemma CollectionFilterOut_drops_bare_collection :
  let p := bare_collection_prop "items" in
  is_collection p
  ∧ CollectionFilterOut_apply [Camera] [p] = []
  ∧ ¬ ∃ s, srna p = Some s ∧ one_of s [Camera].
Proof.
  split; [done|]. split; [by vm_compute|].
  by intros (s & [=] & _).
Qed.

(** Called with no argument, [properties] returns instead of raising. *)
Lemma properties_without_type_returns :
  properties safe_properties None None = ([], inr ([], safe_properties))
  ∧ ¬ raises (properties safe_properties None None).
Proof. split; [done|]. by intros [e [=]]. Qed.

(** Applying a [FuncFilterOut] does not return the list. *)
Lemma FuncFilterOut_apply_not_identity :
  Filter_apply FuncFilterOut abcd
  = ([], inl (AttributeError "'FuncFilterOut' object has no attribute 'apply'"))
  ∧ FilterStack_apply (FilterStack_append [] func_layer) Object abcd
    = ([], inl (AttributeError "'FuncFilterOut' object has no attribute 'apply'"))
  ∧ ¬ ∃ w, Filter_apply FuncFilterOut abcd = (w, inr abcd).
Proof.
  split; [done|]. split; [by vm_compute|]. by intros [w [=]].
Qed.

Lemma FuncFilterOut_has_no_apply_Object :
  ∃ w, FilterStack_apply (FilterStack_append safe_filter func_layer)
         Object object_properties
       = (w, inl (AttributeError "'FuncFilterOut' object has no attribute 'apply'")).
Proof.
  apply (FuncFilterOut_has_no_apply
           (FilterStack_append safe_filter func_layer) Object object_properties).
  vm_compute. repeat first [apply list_elem_of_here | apply list_elem_of_further].
Defined.

Lemma properties_memoized_Object :
  ∃ w items self1,
    properties safe_properties None (Some Object) = (w, inr (items, self1))
    ∧ fst <$> items = ["name"; "data"]
    ∧ let self2 :=
        after_calls self1 [ CallAppend func_layer; CallUnhandled;
                            CallProperties None (Some Camera) ] in
      properties self2 None (Some Object) = ([], inr (items, self2)).
Proof.
  edestruct (properties_memoized safe_properties Object) as (_ & _ & Hlater).
  { vm_compute. reflexivity. }
  eexists _, _, _. split; [vm_compute; reflexivity|]. split; [done|].
  intros self2. by apply Hlater.
Defined.

Lemma unhandled_names_memoized_brushes :
  ∃ w self',
    unhandled_bpy_data_collection_names safe_properties
    = (w, inr (["brushes"], self'))
    ∧ unhandled_bpy_data_collection_names
        (after_calls self' [ CallAppend func_layer; CallUnhandled ])
      = ([], inr (["brushes"], after_calls self' [ CallAppend func_layer; CallUnhandled ])).
Proof.
  edestruct (unhandled_names_memoized safe_properties)
    as (names & Hrun & _ & _ & Hlater).
  { done. }
  { vm_compute. reflexivity. }
  assert (names = ["brushes"]) as ->.
  { vm_compute in Hrun. by injection Hrun as _ <-. }
  eexists _, _. split; [exact Hrun|]. apply Hlater.
Defined.

End Concrete.

(** ** Further properties of the filters *)

Section FilterFacts.
Context `{!Host}.
#[local] Existing Instance unknown_warning_inj.

Lemma filter_none {A} (P : A → Prop) `{!∀ x, Decision (P x)} (l : list A) :
  (∀ x, ¬ P x) → filter P l = [].
Proof.
  intros HP. induction l as [|x l IH]; [done|].
  by rewrite filter_cons_False.
Qed.

Lemma filter_bool_partition {A} (f : A → bool) (l : list A) :
  filter (λ x, f x) l ++ filter (λ x, negb (f x)) l ≡ₚ l.
Proof.
  rewrite <-(filter_app_complement (λ x, f x) l) at 3.
  apply Permutation_app_head. apply reflexive_eq, list_filter_iff.
  intros x. apply negb_True.
Qed.

(** X1: [TypeFilterIn] and [TypeFilterOut] of the same types split a list:
    every property goes to exactly one of the two outputs, and one applied
    to the output of the other leaves nothing. *)
Theorem TypeFilterIn_TypeFilterOut_partition (types : list BlRna)
    (l : list Property) :
  TypeFilterIn_apply types l ++ TypeFilterOut_apply types l ≡ₚ l
  ∧ (∀ p, p ∈ l →
       (p ∈ TypeFilterIn_apply types l ↔ p ∉ TypeFilterOut_apply types l))
  ∧ TypeFilterOut_apply types (TypeFilterIn_apply types l) = []
  ∧ TypeFilterIn_apply types (TypeFilterOut_apply types l) = [].
Proof.
  unfold TypeFilterIn_apply, TypeFilterOut_apply.
  split; [apply filter_bool_partition|]. split; [|split].
  - intros p Hp. rewrite !list_elem_of_filter.
    destruct (matches types p); simpl; tauto.
  - rewrite (filter_filter_bool (matches types) (λ p, negb (matches types p))).
    apply filter_none. intros p. destruct (matches types p); simpl; tauto.
  - rewrite (filter_filter_bool (λ p, negb (matches types p)) (matches types)).
    apply filter_none. intros p. destruct (matches types p); simpl; tauto.
Qed.

(** X2: [NameFilterIn.apply] returns the attributes whose name is in
    [names], in input order, and runs the same check as [NameFilterOut]:
    it logs the same warnings, one for each configured name that is
    neither an input name nor in [_exclude_names]. Its output and that of
    [NameFilterOut] for the same names split the input. *)
Theorem NameFilterIn_apply_warns_alike (names : list string) (l : list Property) :
  ∃ w dropped,
    Filter_apply (NameFilterIn names) l
    = (w, inr (filter (λ p, identifier p ∈ names) l))
    ∧ Filter_apply (NameFilterOut names) l = (w, inr dropped)
    ∧ filter (λ p, identifier p ∈ names) l ++ dropped ≡ₚ l
    ∧ ∀ name, unknown_warning name ∈ w
        ↔ name ∈ names ∧ (name ∉ identifier <$> l) ∧ (name ∉ _exclude_names).
Proof.
  exists (unknown_warning <$> unknowns_of names l),
         (filter (λ p, identifier p ∉ names) l).
  simpl. split; [apply NameFilterIn_apply_ok|].
  split; [apply NameFilterOut_apply_ok|]. split.
  - apply filter_app_complement.
  - intros name. rewrite <-unknowns_of_spec, list_elem_of_fmap. split.
    + by intros (name' & ->%(inj unknown_warning) & Hin).
    + intros Hin. by exists name.
Qed.

(** X3: two filters that define [apply] can be applied in either order,
    and applying one a second time changes nothing. *)
Theorem filters_commute_idempotent (f g : Filter) (l : list Property) :
  f ≠ FuncFilterOut → g ≠ FuncFilterOut →
  kept_alone g (kept_alone f l) = kept_alone f (kept_alone g l)
  ∧ kept_alone f (kept_alone f l) = kept_alone f l.
Proof.
  intros Hf Hg. rewrite !kept_alone_keeps by done.
  rewrite !filter_filter_bool. split.
  - apply list_filter_iff. intros p. by rewrite andb_comm.
  - apply list_filter_iff. intros p. by destruct (keeps f p).
Qed.

(** X4: on an empty list every filter that defines [apply] returns the
    empty list, and the name filters then warn about each of their names
    that is not in [_exclude_names]; a filter of no name logs nothing,
    [NameFilterIn([])] and [TypeFilterIn([])] keep nothing, and
    [NameFilterOut([])] and [TypeFilterOut([])] keep everything. *)
Theorem filters_on_empty (names : list string) (l : list Property) :
  (∀ f, f ≠ FuncFilterOut → kept_alone f [] = [])
  ∧ (∃ w, Filter_apply (NameFilterOut names) [] = (w, inr [])
          ∧ ∀ name, unknown_warning name ∈ w
              ↔ name ∈ names ∧ (name ∉ _exclude_names))
  ∧ Filter_apply (NameFilterIn []) l = ([], inr [])
  ∧ Filter_apply (NameFilterOut []) l = ([], inr l)
  ∧ Filter_apply (TypeFilterIn (TypeFilter_init (ManyTypes []))) l = ([], inr [])
  ∧ Filter_apply (TypeFilterOut (TypeFilter_init (ManyTypes []))) l = ([], inr l).
Proof.
  split; [|split; [|split; [|split; [|split]]]].
  - intros f Hf. by rewrite kept_alone_keeps.
  - exists (unknown_warning <$> unknowns_of names []). simpl.
    split; [apply NameFilterOut_apply_ok|].
    intros name. rewrite list_elem_of_fmap. split.
    + intros (name' & ->%(inj unknown_warning) & Hin).
      apply unknowns_of_spec in Hin. tauto.
    + intros [Hin Hex]. exists name. split; [done|].
      apply unknowns_of_spec. split_and!; [done| |done]. apply not_elem_of_nil.
  - simpl. rewrite NameFilterIn_apply_ok. f_equal.
    f_equal. apply filter_none. intros p. apply not_elem_of_nil.
  - simpl. rewrite NameFilterOut_apply_ok. f_equal.
    f_equal. apply filter_all. intros p. apply not_elem_of_nil.
  - simpl. unfold TypeFilterIn_apply. rewrite filter_none; [done|].
    intros p. unfold matches. simpl. tauto.
  - simpl. unfold TypeFilterOut_apply. rewrite filter_all; [done|].
    intros p. unfold matches. simpl. tauto.
Qed.

End FilterFacts.

(** ** Further properties of the stack *)

Section StackFacts.
Context `{!Host}.

Lemma apply_in_sequence_app (fs gs : list Filter) (l : list Property) :
  Design.apply_in_sequence (fs ++ gs) l
  = Design.apply_in_sequence fs l ≫= Design.apply_in_sequence gs.
Proof.
  rewrite !apply_in_sequence_for_each, for_each_app.
  apply Run_bind_ext. intros l'. by rewrite apply_in_sequence_for_each.
Qed.

Lemma walk_unfold (stack : FilterStack) (t : BlRna) :
  Design.walk stack t
  = filters_at stack (Some t)
    ++ match base t with
       | Some b => Design.walk stack b
       | None => filters_at stack None
       end.
Proof.
  unfold Design.walk, Design.AttributeChain, filters_at.
  replace (Design.ancestors t)
    with (t :: match base t with None => [] | Some b => Design.ancestors b end)
    by by destruct t.
  rewrite fmap_cons, <-app_comm_cons, bind_cons.
  destruct (base t) as [b|]; [done|].
  rewrite fmap_nil, app_nil_l, bind_cons. f_equal. apply app_nil_r.
Qed.

(** X5: the evaluation for a type applies the filters the layers hold for
    the type itself, then goes on as the evaluation for its base does; for
    a type with no base it goes on with the filters held for [None]. *)
Theorem FilterStack_apply_inherits (stack : FilterStack) (t : BlRna)
    (l : list Property) :
  FilterStack_apply stack t l
  = Design.apply_in_sequence (filters_at stack (Some t)) l
    ≫= λ l', match base t with
             | Some b => FilterStack_apply stack b l'
             | None => Design.apply_in_sequence (filters_at stack None) l'
             end.
Proof.
  rewrite FilterStack_apply_evaluate. unfold Design.evaluate.
  rewrite walk_unfold, apply_in_sequence_app. apply Run_bind_ext. intros l'.
  destruct (base t) as [b|]; [|done].
  by rewrite FilterStack_apply_evaluate.
Qed.

Lemma forallb_Permutation {A} (f : A → bool) (xs ys : list A) :
  xs ≡ₚ ys → forallb f xs = forallb f ys.
Proof.
  induction 1 as [|x xs ys _ IH|x y xs|xs ys zs _ IH1 _ IH2]; simpl.
  - done.
  - by rewrite IH.
  - by destruct (f x), (f y).
  - by rewrite IH1.
Qed.

Lemma forallb_has_apply (fs : list Filter) :
  forallb has_apply fs = true ↔ FuncFilterOut ∉ fs.
Proof.
  rewrite forallb_forall. split.
  - intros Hall Hin. apply list_elem_of_In, Hall in Hin. done.
  - intros Hnin f Hf%list_elem_of_In. destruct f; try done.
Qed.

(** What a sequence of filters delivers, whatever it logs: nothing if one
    of them has no [apply], else what all of them keep. *)
Lemma apply_in_sequence_value (fs : list Filter) (l : list Property) :
  value_of (Design.apply_in_sequence fs l)
  = if forallb has_apply fs then Some (filter (λ p, keeps_all fs p) l) else None.
Proof.
  destruct (forallb has_apply fs) eqn:Hfs.
  - apply forallb_has_apply in Hfs.
    by destruct (apply_in_sequence_keeps_all fs l Hfs) as [w ->].
  - pose proof (apply_in_sequence_sublist fs l) as Hsub.
    destruct (Design.apply_in_sequence fs l) as [w [e|out]] eqn:Hrun; [done|].
    exfalso. clear Hsub. revert l w out Hrun.
    induction fs as [|f fs IH]; intros l w out; simpl in *; [done|].
    intros [(e & _ & [=])|(w1 & l1 & w2 & Hf & Hrest & _)]%Run_bind_inv.
    destruct f; simpl in Hfs; by eapply IH.
Qed.

Lemma FilterStack_apply_value (stack : FilterStack) (t : BlRna) (l : list Property) :
  value_of (FilterStack_apply stack t l)
  = if forallb has_apply (Design.walk stack t)
    then Some (filter (λ p, keeps_all (Design.walk stack t) p) l)
    else None.
Proof. rewrite FilterStack_apply_evaluate. apply apply_in_sequence_value. Qed.

Lemma keeps_all_app (fs gs : list Filter) (p : Property) :
  keeps_all (fs ++ gs) p = keeps_all fs p && keeps_all gs p.
Proof. apply forallb_app. Qed.

Lemma filter_keeps_all_app (fs gs : list Filter) (l : list Property) :
  filter (λ p, keeps_all (fs ++ gs) p) l
  = filter (λ p, keeps_all fs p) (filter (λ p, keeps_all gs p) l).
Proof.
  rewrite filter_filter_bool. apply list_filter_iff. intros p.
  by rewrite keeps_all_app, andb_comm.
Qed.

(** X6: when the evaluation for a type with a base ends well, so does the
    evaluation for the base on the same list, and the type is left with
    what its base is left with, less what the filters held for the type
    itself remove. *)
Theorem FilterStack_apply_narrows_base (stack : FilterStack) (t b : BlRna)
    (l out : list Property) :
  base t = Some b →
  value_of (FilterStack_apply stack t l) = Some out →
  ∃ out_base,
    value_of (FilterStack_apply stack b l) = Some out_base
    ∧ out = filter (λ p, keeps_all (filters_at stack (Some t)) p) out_base
    ∧ out `sublist_of` out_base.
Proof.
  intros Hb. rewrite !FilterStack_apply_value, (walk_unfold stack t), Hb.
  rewrite forallb_app.
  destruct (forallb has_apply (filters_at stack (Some t))); [|done].
  destruct (forallb has_apply (Design.walk stack b)); [|done].
  intros [= <-]. eexists. split; [done|].
  rewrite filter_keeps_all_app. split; [done|]. apply sublist_filter.
Qed.

Lemma walk_app (s1 s2 : FilterStack) (t : BlRna) :
  Design.walk (s1 ++ s2) t ≡ₚ Design.walk s1 t ++ Design.walk s2 t.
Proof.
  unfold Design.walk.
  induction (Design.AttributeChain t) as [|a chain IH]; [done|].
  rewrite !bind_cons, IH, bind_app.
  rewrite <-!(assoc_L (++)). apply Permutation_app_head.
  rewrite !(assoc_L (++)). apply Permutation_app_tail, Permutation_app_comm.
Qed.

Lemma walk_Permutation (s1 s2 : FilterStack) (t : BlRna) :
  s1 ≡ₚ s2 → Design.walk s1 t ≡ₚ Design.walk s2 t.
Proof.
  intros Hperm. unfold Design.walk.
  induction (Design.AttributeChain t) as [|a chain IH]; [done|].
  rewrite !bind_cons, IH. apply Permutation_app_tail. by rewrite Hperm.
Qed.

Lemma rekey_nil : rekey [] = ∅.
Proof. done. Qed.

(** X7: appending an empty dictionary, as [safe_filter] does with
    [safe_exclusions], changes no evaluation: the list, the warnings and
    the exceptions are those of the stack before. *)
Theorem FilterStack_append_empty (stack : FilterStack) (t : BlRna)
    (l : list Property) :
  FilterStack_apply (FilterStack_append stack []) t l = FilterStack_apply stack t l.
Proof.
  rewrite !FilterStack_apply_evaluate. unfold Design.evaluate. f_equal.
  unfold FilterStack_append, Design.walk. rewrite rekey_nil.
  induction (Design.AttributeChain t) as [|a chain IH]; [done|].
  rewrite !bind_cons, IH. f_equal.
  rewrite bind_app, bind_cons. unfold Design.filtersFor at 2.
  rewrite lookup_empty. apply app_nil_r.
Qed.

(** X8: when the evaluation of a stack with one more layer ends well, the
    evaluation of the stack without it ends well too, and the list
    delivered is the one the new layer alone makes of the list the old
    stack delivers: a layer can only remove. *)
Theorem FilterStack_append_narrows (stack : FilterStack)
    (filter_set : list (option BlRna * FilterEntry)) (t : BlRna)
    (l out : list Property) :
  value_of (FilterStack_apply (FilterStack_append stack filter_set) t l) = Some out →
  ∃ out_before,
    value_of (FilterStack_apply stack t l) = Some out_before
    ∧ value_of (FilterStack_apply (FilterStack_append [] filter_set) t out_before)
      = Some out
    ∧ out `sublist_of` out_before.
Proof.
  unfold FilterStack_append. rewrite !FilterStack_apply_value, app_nil_l.
  pose proof (walk_app stack [rekey filter_set] t) as Hw.
  rewrite (forallb_Permutation _ _ _ Hw), forallb_app.
  destruct (forallb has_apply (Design.walk stack t)); [|done].
  destruct (forallb has_apply (Design.walk [rekey filter_set] t)) eqn:Hlayer;
    [|done].
  intros [= <-]. eexists. split; [done|].
  rewrite FilterStack_apply_value, Hlayer.
  assert (filter (λ p, keeps_all (Design.walk (stack ++ [rekey filter_set]) t) p) l
          = filter (λ p, keeps_all (Design.walk [rekey filter_set] t) p)
              (filter (λ p, keeps_all (Design.walk stack t) p) l)) as ->.
  { rewrite filter_filter_bool. apply list_filter_iff. intros p.
    by rewrite (keeps_all_Permutation _ _ _ Hw), keeps_all_app. }
  split; [done|]. apply sublist_filter.
Qed.

(** X9: the order of the layers has no part in the list delivered: two
    stacks with the same layers, in whatever order, both fail or both
    deliver the same list. *)
Theorem FilterStack_layer_order (stack stack' : FilterStack) (t : BlRna)
    (l : list Property) :
  stack ≡ₚ stack' →
  value_of (FilterStack_apply stack t l) = value_of (FilterStack_apply stack' t l).
Proof.
  intros Hperm%(walk_Permutation _ _ t). rewrite !FilterStack_apply_value.
  rewrite (forallb_Permutation _ _ _ Hperm).
  destruct (forallb has_apply (Design.walk stack' t)); [|done].
  f_equal. apply list_filter_iff. intros p.
  by rewrite (keeps_all_Permutation _ _ _ Hperm).
Qed.

End StackFacts.

(** ** The mapping [properties] builds *)

Section DictFacts.
Context `{!Host}.

Lemma dict_set_fresh (d : Properties) (k : string) (v : Property) :
  k ∉ d.*1 → dict_set d k v = d ++ [(k, v)].
Proof.
  induction d as [|[k' v'] d IH]; intros Hk; simpl; [done|].
  apply not_elem_of_cons in Hk as [Hne Hk]. simpl in Hne.
  rewrite decide_False by done. by rewrite IH.
Qed.

Lemma dict_set_keys (d : Properties) (k : string) (v : Property) :
  k ∈ d.*1 → (dict_set d k v).*1 = d.*1.
Proof.
  induction d as [|[k' v'] d IH]; intros Hk; simpl.
  - by apply elem_of_nil in Hk.
  - destruct (decide (k' = k)) as [->|Hne]; [done|]. simpl. f_equal.
    apply IH. by apply elem_of_cons in Hk as [?|?].
Qed.

Lemma dict_set_elem_of (d : Properties) (k : string) (v : Property) k0 v0 :
  (k0, v0) ∈ dict_set d k v → (k0, v0) = (k, v) ∨ (k0, v0) ∈ d.
Proof.
  induction d as [|[k' v'] d IH]; simpl.
  - intros ->%list_elem_of_singleton. by left.
  - destruct (decide (k' = k)) as [->|Hne].
    + intros [->|Hin]%elem_of_cons; [by left|]. right. by apply list_elem_of_further.
    + intros [->|Hin]%elem_of_cons; [right; apply list_elem_of_here|].
      destruct (IH Hin) as [?|?]; [by left|]. right. by apply list_elem_of_further.
Qed.

Lemma dict_set_NoDup (d : Properties) (k : string) (v : Property) :
  NoDup d.*1 → NoDup (dict_set d k v).*1.
Proof.
  intros Hd. destruct (decide (k ∈ d.*1)) as [Hin|Hnin].
  - by rewrite dict_set_keys.
  - rewrite dict_set_fresh, fmap_app by done.
    apply NoDup_app. split; [done|]. split; [|apply NoDup_singleton].
    by intros k' Hk' ->%list_elem_of_singleton.
Qed.

(** The loop of the dictionary display, from any dictionary on. *)
Lemma dict_fold_spec (ps : list Property) (d : Properties) :
  let d' := foldl (λ d p, dict_set d (identifier p) p) d ps in
  (NoDup d.*1 → NoDup d'.*1)
  ∧ (∀ k p, (k, p) ∈ d' → (k, p) ∈ d ∨ (p ∈ ps ∧ identifier p = k))
  ∧ (∀ k, k ∈ d'.*1 ↔ k ∈ d.*1 ∨ k ∈ identifier <$> ps)
  ∧ (NoDup (d.*1 ++ (identifier <$> ps)) →
       d' = d ++ ((λ p, (identifier p, p)) <$> ps)).
Proof.
  revert d. induction ps as [|q ps IH]; intros d; simpl.
  { split; [done|]. split; [by left|]. split.
    - intros k. split; [by left|]. by intros [?|?%elem_of_nil].
    - intros _. by rewrite app_nil_r. }
  destruct (IH (dict_set d (identifier q) q)) as (IH1 & IH2 & IH3 & IH4).
  split; [|split; [|split]].
  - intros Hd. by apply IH1, dict_set_NoDup.
  - intros k p [Hin|[Hin Hk]]%IH2.
    + apply dict_set_elem_of in Hin as [[= -> ->]|Hin]; [|by left].
      right. split; [apply list_elem_of_here|done].
    + right. split; [by apply list_elem_of_further|done].
  - intros k. rewrite IH3, elem_of_cons.
    destruct (decide (identifier q ∈ d.*1)) as [Hin|Hnin].
    + rewrite dict_set_keys by done. split; [tauto|].
      intros [?|[->|?]]; tauto.
    + rewrite dict_set_fresh, fmap_app, elem_of_app by done. simpl.
      rewrite list_elem_of_singleton. tauto.
  - intros Hnd. apply NoDup_app in Hnd as (Hd & Hdisj & Hps).
    apply NoDup_cons in Hps as [Hq Hps].
    assert (identifier q ∉ d.*1) as Hfresh.
    { intros Hin. apply (Hdisj _ Hin), list_elem_of_here. }
    rewrite IH4.
    + rewrite dict_set_fresh by done. by rewrite <-(assoc_L (++)).
    + rewrite dict_set_fresh, fmap_app by done. simpl.
      rewrite <-(assoc_L (++)). simpl.
      apply NoDup_app. split; [done|]. split; [|by apply NoDup_cons].
      intros k Hk [->|Hin]%elem_of_cons; [done|]. by apply (Hdisj k), list_elem_of_further.
Qed.

(** X10: on a cache miss that ends well, the names [properties] returns
    are all different, each is the [identifier] of the property it comes
    with, and that property is one the host lists for the type. When the
    host lists no name twice, the properties come in the order of the
    host: they are the output of the stack, a subsequence of the host's
    list. *)
Theorem properties_in_host_order (self : SynchronizedProperties) (t : BlRna)
    w items self' :
  _properties self !! rna_key t = None →
  properties self None (Some t) = (w, inr (items, self')) →
  NoDup items.*1
  ∧ (∀ k p, (k, p) ∈ items → identifier p = k ∧ p ∈ rna_properties t)
  ∧ (NoDup (identifier <$> rna_properties t) →
       items = (λ p, (identifier p, p)) <$> items.*2
       ∧ items.*2 `sublist_of` rna_properties t
       ∧ value_of (FilterStack_apply (_filter_stack self) t (rna_properties t))
         = Some items.*2).
Proof.
  simpl. unfold bl_rna_of. intros Hmiss Hrun.
  apply properties_for_inv in Hrun
    as [(Hhit & _ & _)|(_ & out & Heval & -> & _)]; [congruence|].
  pose proof (apply_in_sequence_sublist
                (Design.walk (_filter_stack self) t) (rna_properties t)) as Hsub.
  fold (Design.evaluate (_filter_stack self) t (rna_properties t)) in Hsub.
  rewrite <-FilterStack_apply_evaluate, Heval in Hsub.
  destruct (dict_fold_spec out []) as (Hnd & Hel & _ & Heq).
  fold (dict_of_properties out) in Hnd, Hel, Heq.
  split; [apply Hnd, NoDup_nil_2|]. split.
  - intros k p [?%elem_of_nil|[Hp Hk]]%Hel; [done|]. split; [done|].
    by eapply elem_of_sublist.
  - intros Hhost. simpl in Heq.
    rewrite Heq by (by eapply sublist_NoDup; [|apply fmap_sublist, Hsub]).
    assert (((λ p, (identifier p, p)) <$> out).*2 = out) as Hsnd.
    { clear. induction out as [|p out IH]; [done|]. by rewrite !fmap_cons, IH. }
    rewrite Hsnd.
    split; [done|]. split; [done|]. by rewrite Heval.
Qed.

End DictFacts.

(** ** The tables: what the two default contexts synchronize *)

Section TableFacts.
Context `{!Host, !BpyTypes}.

Lemma rekey_fold_notin (items : list (option BlRna * FilterEntry))
    (d : FilterSet) (k : option nat) :
  k ∉ (λ kv, key_of kv.1) <$> items →
  foldl (λ d kv, <[key_of (bl_rna_of <$> kv.1) := kv.2]> d) d items !! k = d !! k.
Proof.
  revert d. induction items as [|[k' e'] items IH]; intros d Hk; [done|].
  rewrite fmap_cons in Hk. apply not_elem_of_cons in Hk as [Hne Hk].
  simpl. rewrite IH by done. apply lookup_insert_ne.
  simpl in Hne. by destruct k'.
Qed.

Lemma rekey_fold_in (items : list (option BlRna * FilterEntry))
    (d : FilterSet) (k : option nat) (e : FilterEntry) :
  foldl (λ d kv, <[key_of (bl_rna_of <$> kv.1) := kv.2]> d) d items !! k = Some e →
  d !! k = Some e ∨ ∃ k', (k', e) ∈ items ∧ key_of k' = k.
Proof.
  revert d. induction items as [|[k' e'] items IH]; intros d; [by left|].
  simpl. intros [Hd|(k'' & Hin & Hk)]%IH.
  - destruct (decide (key_of (bl_rna_of <$> k') = k)) as [Heq|Hne].
    + rewrite <-Heq, lookup_insert_eq in Hd. injection Hd as ->.
      right. exists k'. split; [apply list_elem_of_here|].
      rewrite <-Heq. by destruct k'.
    + rewrite lookup_insert_ne in Hd by done. by left.
  - right. exists k''. split; [by apply list_elem_of_further|done].
Qed.

(** A key that the dictionary displays once is looked up to its value. *)
Lemma rekey_lookup_unique (items : list (option BlRna * FilterEntry))
    (k : option BlRna) (e : FilterEntry) :
  NoDup ((λ kv, key_of kv.1) <$> items) → (k, e) ∈ items →
  rekey items !! key_of k = Some e.
Proof.
  unfold rekey. generalize (∅ : FilterSet).
  induction items as [|[k' e'] items IH]; intros d Hnd Hin.
  { by apply elem_of_nil in Hin. }
  rewrite fmap_cons in Hnd. apply NoDup_cons in Hnd as [Hk' Hnd]. simpl in *.
  apply elem_of_cons in Hin as [[= <- <-]|Hin].
  - rewrite rekey_fold_notin by done.
    replace (key_of (bl_rna_of <$> k)) with (key_of k) by by destruct k.
    apply lookup_insert_eq.
  - by apply IH.
Qed.

Lemma filtersFor_rekey_in (items : list (option BlRna * FilterEntry))
    (a : option BlRna) (f : Filter) :
  f ∈ Design.filtersFor (rekey items) a → f ∈ table_filters items.
Proof.
  unfold Design.filtersFor, table_filters.
  destruct (rekey items !! key_of a) as [e|] eqn:Hlook.
  - apply rekey_fold_in in Hlook as [Hempty|(k' & Hin & _)].
    { by rewrite lookup_empty in Hempty. }
    intros Hf. apply list_elem_of_bind. exists (k', e). split; [|done].
    by destruct e.
  - by intros ?%elem_of_nil.
Qed.

Lemma walk_in_layer (stack : FilterStack) (t : BlRna) (f : Filter) :
  f ∈ Design.walk stack t →
  ∃ layer a, layer ∈ stack ∧ f ∈ Design.filtersFor layer a.
Proof.
  unfold Design.walk.
  intros (a & (layer & Hf & Hlayer)%list_elem_of_bind & _)%list_elem_of_bind.
  by exists layer, a.
Qed.

Lemma filters_at_None_walk (stack : FilterStack) (t : BlRna) (f : Filter) :
  f ∈ filters_at stack None → f ∈ Design.walk stack t.
Proof.
  intros Hf. induction t as [k|k b IH] using BlRna_chain_ind;
    rewrite walk_unfold; simpl; apply elem_of_app; by right.
Qed.

Lemma default_exclusions_have_apply :
  forallb has_apply (table_filters default_exclusions) = true.
Proof. reflexivity. Qed.

Lemma safe_blenddata_have_apply :
  forallb has_apply (table_filters safe_blenddata) = true.
Proof. reflexivity. Qed.

(** No filter of the two default stacks is a [FuncFilterOut]. *)
Lemma default_stacks_have_apply (stack : FilterStack) (t : BlRna) :
  stack = test_filter ∨ stack = safe_filter →
  FuncFilterOut ∉ Design.walk stack t.
Proof.
  intros Hstack (layer & a & Hlayer & Hf)%walk_in_layer.
  assert (layer = rekey default_exclusions ∨ layer = rekey safe_exclusions
          ∨ layer = rekey safe_blenddata) as Hcases.
  { destruct Hstack as [-> | ->];
      unfold test_filter, safe_filter, FilterStack_append in Hlayer; simpl in Hlayer;
      repeat (apply elem_of_cons in Hlayer as [->|Hlayer]; [tauto|]);
      by apply elem_of_nil in Hlayer. }
  destruct Hcases as [-> | [-> | ->]]; apply filtersFor_rekey_in in Hf.
  - pose proof default_exclusions_have_apply as Hall.
    rewrite forallb_forall in Hall. by apply list_elem_of_In, Hall in Hf.
  - by apply elem_of_nil in Hf.
  - pose proof safe_blenddata_have_apply as Hall.
    rewrite forallb_forall in Hall. by apply list_elem_of_In, Hall in Hf.
Qed.

Lemma foldl_step {A B} (f : A → B → A) (a : A) (x : B) (l : list B) :
  foldl f a (x :: l) = foldl f (f a x) l.
Proof. done. Qed.

(** The entry of [default_exclusions] for every type. *)
Lemma default_exclusions_None :
  Design.filtersFor (rekey default_exclusions) None
  = [ type_out T_MeshVertex; type_out T_PoseBone;
      NameFilterOut (NameFilter_init (NamesSet _exclude_names)) ].
Proof.
  unfold Design.filtersFor, rekey, default_exclusions.
  rewrite foldl_step, rekey_fold_notin.
  - simpl. by rewrite lookup_insert_eq.
  - apply (bool_decide_unpack _). by vm_compute.
Qed.

Lemma default_stacks_wildcard (stack : FilterStack) (t : BlRna) (f : Filter) :
  stack = test_filter ∨ stack = safe_filter →
  f ∈ [ type_out T_MeshVertex; type_out T_PoseBone;
        NameFilterOut (NameFilter_init (NamesSet _exclude_names)) ] →
  f ∈ Design.walk stack t.
Proof.
  intros Hstack Hf. apply filters_at_None_walk. unfold filters_at.
  apply list_elem_of_bind. exists (rekey default_exclusions).
  rewrite default_exclusions_None. split; [done|].
  destruct Hstack as [-> | ->]; apply list_elem_of_here.
Qed.

(** X11: with [test_filter] and with [safe_filter], the evaluation for any
    type and any list of properties ends well, and nothing it delivers is
    named in [_exclude_names] or has, or points to, the type [MeshVertex]
    or [PoseBone]. *)
Theorem default_stacks_exclude_always (t : BlRna) (l : list Property) :
  let excluded_always stack :=
    ∃ w out, FilterStack_apply stack t l = (w, inr out)
      ∧ ∀ p, p ∈ out →
          (identifier p ∉ _exclude_names)
          ∧ matches [T_MeshVertex] p = false
          ∧ matches [T_PoseBone] p = false in
  excluded_always test_filter ∧ excluded_always safe_filter.
Proof.
  assert (∀ stack, stack = test_filter ∨ stack = safe_filter →
    ∃ w out, FilterStack_apply stack t l = (w, inr out)
      ∧ ∀ p, p ∈ out →
          (identifier p ∉ _exclude_names)
          ∧ matches [T_MeshVertex] p = false
          ∧ matches [T_PoseBone] p = false) as Hboth.
  { intros stack Hstack.
    destruct (FilterStack_apply_keeps_all stack t l (Design.walk stack t))
      as [w Hw]; [done|by apply default_stacks_have_apply|].
    exists w, (filter (λ p, keeps_all (Design.walk stack t) p) l).
    split; [done|]. intros p [Hkeep _]%list_elem_of_filter.
    apply Is_true_true in Hkeep. unfold keeps_all in Hkeep.
    rewrite forallb_forall in Hkeep.
    assert (∀ f, f ∈ [ type_out T_MeshVertex; type_out T_PoseBone;
                       NameFilterOut (NameFilter_init (NamesSet _exclude_names)) ] →
                 keeps f p = true) as Hwild.
    { intros f Hf. apply Hkeep, list_elem_of_In.
      by apply default_stacks_wildcard. }
    split; [|split].
    - specialize (Hwild (NameFilterOut (NameFilter_init (NamesSet _exclude_names)))).
      simpl in Hwild. rewrite <-elem_of_elements.
      eapply bool_decide_eq_true_1, Hwild.
      do 2 apply list_elem_of_further. apply list_elem_of_here.
    - specialize (Hwild (type_out T_MeshVertex)). simpl in Hwild.
      apply negb_true_iff, Hwild, list_elem_of_here.
    - specialize (Hwild (type_out T_PoseBone)). simpl in Hwild.
      apply negb_true_iff, Hwild. apply list_elem_of_further, list_elem_of_here. }
  split; apply Hboth; [by left|by right].
Qed.

Lemma default_exclusions_keys :
  (λ kv : option BlRna * FilterEntry, key_of kv.1) <$> default_exclusions
  = None :: (Some <$> (rna_key <$> table_types)).
Proof. reflexivity. Qed.

Lemma default_exclusions_NoDup :
  NoDup (rna_key <$> table_types) →
  NoDup ((λ kv : option BlRna * FilterEntry, key_of kv.1) <$> default_exclusions).
Proof.
  intros Hnd. rewrite default_exclusions_keys. apply NoDup_cons. split.
  - by intros (k & ? & _)%list_elem_of_fmap.
  - by apply (NoDup_fmap_2 _).
Qed.

(** The entries of the three layers of [safe_filter] for [BlendData]. *)
Lemma default_exclusions_BlendData :
  NoDup (rna_key <$> table_types) →
  Design.filtersFor (rekey default_exclusions) (Some BlendData)
  = [ names_out blenddata_exclude; type_in CollectionProperty ].
Proof.
  intros Hnd%default_exclusions_NoDup. unfold Design.filtersFor.
  rewrite (rekey_lookup_unique default_exclusions (Some BlendData)
             (ManyFilters [ names_out blenddata_exclude; type_in CollectionProperty ]));
    [done|done|].
  do 2 apply list_elem_of_further. apply list_elem_of_here.
Qed.

Lemma safe_blenddata_BlendData :
  Design.filtersFor (rekey safe_blenddata) (Some BlendData)
  = [ names_in safe_blenddata_collections ]
  ∧ Design.filtersFor (rekey safe_blenddata) None = [].
Proof.
  unfold Design.filtersFor, rekey, safe_blenddata. simpl.
  by rewrite lookup_insert_eq, lookup_insert_ne, lookup_empty.
Qed.

Lemma safe_names_not_excluded (name : string) :
  name ∈ safe_blenddata_collections →
  (name ∉ blenddata_exclude) ∧ (name ∉ _exclude_names).
Proof.
  assert (Forall (λ name, (name ∉ blenddata_exclude) ∧ (name ∉ _exclude_names))
            safe_blenddata_collections) as Hall.
  { apply (bool_decide_unpack _). by vm_compute. }
  rewrite Forall_forall in Hall. apply Hall.
Qed.

Lemma matches_init_one (t : BlRna) (p : Property) :
  matches (TypeFilter_init (OneType t)) p = matches [t] p.
Proof. done. Qed.

Lemma filtersFor_empty (a : option BlRna) : Design.filtersFor ∅ a = [].
Proof. unfold Design.filtersFor. by rewrite lookup_empty. Qed.

Lemma safe_filter_layers :
  safe_filter
  = [ rekey default_exclusions; rekey safe_exclusions; rekey safe_blenddata ].
Proof. done. Qed.

(** What the two default stacks make of the properties of [BlendData]. *)
Lemma default_stacks_BlendData (l : list Property) :
  base BlendData = None →
  NoDup (rna_key <$> table_types) →
  (∃ w, FilterStack_apply test_filter BlendData l
        = (w, inr (filter (λ p, (identifier p ∉ blenddata_exclude)
                                ∧ (identifier p ∉ _exclude_names)
                                ∧ matches [CollectionProperty] p
                                ∧ ¬ matches [T_MeshVertex] p
                                ∧ ¬ matches [T_PoseBone] p) l)))
  ∧ (∃ w, FilterStack_apply safe_filter BlendData l
          = (w, inr (filter (λ p, identifier p ∈ safe_blenddata_collections
                                  ∧ matches [CollectionProperty] p
                                  ∧ ¬ matches [T_MeshVertex] p
                                  ∧ ¬ matches [T_PoseBone] p) l))).
Proof.
  intros Hbase Hnd.
  pose proof (default_exclusions_BlendData Hnd) as Hblend.
  pose proof default_exclusions_None as Hnone.
  destruct safe_blenddata_BlendData as [Hsafe Hsafe_none].
  split.
  - destruct (FilterStack_apply_keeps_all test_filter BlendData l
                (Design.walk test_filter BlendData)) as [w Hw];
      [done|apply default_stacks_have_apply; by left|].
    exists w. rewrite Hw. f_equal. f_equal. apply list_filter_iff. intros p.
    rewrite walk_unfold, Hbase. unfold filters_at, test_filter, FilterStack_append.
    rewrite app_nil_l, !bind_cons, Hblend, Hnone. unfold keeps_all. simpl.
    rewrite !matches_init_one, !andb_True, !negb_True, !bool_decide_spec.
    rewrite elem_of_elements. change (Is_true true) with True. tauto.
  - destruct (FilterStack_apply_keeps_all safe_filter BlendData l
                (Design.walk safe_filter BlendData)) as [w Hw];
      [done|apply default_stacks_have_apply; by right|].
    exists w. rewrite Hw. f_equal. f_equal. apply list_filter_iff. intros p.
    rewrite walk_unfold, Hbase, safe_filter_layers. unfold filters_at.
    rewrite !bind_cons, Hblend, Hnone, Hsafe, Hsafe_none.
    unfold safe_exclusions. rewrite rekey_nil, !filtersFor_empty.
    unfold keeps_all. simpl.
    rewrite !matches_init_one, !andb_True, !negb_True, !bool_decide_spec.
    rewrite elem_of_elements. change (Is_true true) with True.
    pose proof (safe_names_not_excluded (identifier p)). tauto.
Qed.

(** X12: for a [BlendData] with no base and tables whose types are all
    different, [test_filter] leaves of the properties of [BlendData] the
    collections, less those named in [blenddata_exclude] or
    [_exclude_names] and those of [MeshVertex] or [PoseBone]; [safe_filter]
    leaves of these the ones named in [safe_blenddata_collections]. *)
Theorem default_stacks_on_BlendData (l : list Property) :
  base BlendData = None →
  NoDup (rna_key <$> table_types) →
  (∃ w, FilterStack_apply test_filter BlendData l
        = (w, inr (filter (λ p, (identifier p ∉ blenddata_exclude)
                                ∧ (identifier p ∉ _exclude_names)
                                ∧ matches [CollectionProperty] p
                                ∧ ¬ matches [T_MeshVertex] p
                                ∧ ¬ matches [T_PoseBone] p) l)))
  ∧ (∃ w, FilterStack_apply safe_filter BlendData l
          = (w, inr (filter (λ p, identifier p ∈ safe_blenddata_collections
                                  ∧ matches [CollectionProperty] p
                                  ∧ ¬ matches [T_MeshVertex] p
                                  ∧ ¬ matches [T_PoseBone] p) l))).
Proof. apply default_stacks_BlendData. Qed.

(** X13: for such a host, [unhandled_bpy_data_collection_names] of
    [safe_properties] ends well; a known collection name is in the list
    it returns exactly when [BlendData] has no collection property of that
    name that [safe_filter] lets through, so every known name that is not
    in [safe_blenddata_collections] is in it. *)
Theorem safe_properties_unhandled :
  base BlendData = None →
  NoDup (rna_key <$> table_types) →
  ∃ w names self',
    unhandled_bpy_data_collection_names safe_properties = (w, inr (names, self'))
    ∧ (∀ name, name ∈ names
         ↔ name ∈ dom collection_name_to_type
           ∧ ¬ ∃ p, p ∈ rna_properties BlendData
                    ∧ identifier p = name
                    ∧ name ∈ safe_blenddata_collections
                    ∧ matches [CollectionProperty] p
                    ∧ ¬ matches [T_MeshVertex] p
                    ∧ ¬ matches [T_PoseBone] p)
    ∧ (∀ name, name ∈ dom collection_name_to_type →
               name ∉ safe_blenddata_collections → name ∈ names).
Proof.
  intros Hbase Hnd.
  destruct (default_stacks_BlendData (rna_properties BlendData) Hbase Hnd)
    as [_ [w Heval]].
  set (out := filter _ (rna_properties BlendData)) in Heval.
  assert (properties safe_properties None (Some BlendData)
          = (w, inr (dict_of_properties out,
                     {| _properties := <[rna_key BlendData := dict_of_properties out]> ∅;
                        _filter_stack := safe_filter;
                        _unhandled_bpy_data_collection_names := None |}))) as Hprops.
  { simpl. unfold properties_for, bl_rna_of. simpl. rewrite lookup_empty.
    erewrite Run_bind_ok; [|exact Heval|done]. by rewrite app_nil_r. }
  eexists w, _, _. split.
  { unfold unhandled_bpy_data_collection_names. simpl.
    erewrite Run_bind_ok; [|exact Hprops|done]. by rewrite app_nil_r. }
  assert (∀ name, name ∈ elements (dom collection_name_to_type
                    ∖ (list_to_set (dict_of_properties out).*1 : gset string))
     ↔ name ∈ dom collection_name_to_type
       ∧ ¬ ∃ p, p ∈ rna_properties BlendData
                ∧ identifier p = name
                ∧ name ∈ safe_blenddata_collections
                ∧ matches [CollectionProperty] p
                ∧ ¬ matches [T_MeshVertex] p
                ∧ ¬ matches [T_PoseBone] p) as Hiff.
  { intros name. rewrite elem_of_elements, elem_of_difference, elem_of_list_to_set.
    apply and_iff_compat_l, not_iff_compat.
    destruct (dict_fold_spec out []) as (_ & _ & Hkeys & _).
    fold (dict_of_properties out) in Hkeys. rewrite Hkeys, list_elem_of_fmap.
    split.
    - intros [(x & _ & Hx)|Hin]; [by apply elem_of_nil in Hx|].
      apply list_elem_of_fmap in Hin as (p & -> & Hp).
      apply list_elem_of_filter in Hp as [Hkeep Hp]. exists p. tauto.
    - intros (p & Hp & <- & Hkeep). right.
      apply list_elem_of_fmap. exists p. split; [done|].
      apply list_elem_of_filter. tauto. }
  split; [exact Hiff|].
  intros name Hdom Hnot. apply Hiff. split; [done|].
  intros (p & _ & _ & Hin & _). done.
Qed.

End TableFacts.

(** ** Concrete evaluations of the further properties *)

Section ConcreteMore.
#[local] Existing Instance Example.host.
#[local] Existing Instance ExampleTypes.types.

Lemma filters_commute_idempotent_abcd :
  let f := NameFilterOut ["b"] in
  let g := TypeFilterIn [Example.StringProperty] in
  kept_alone g (kept_alone f Example.abcd) = kept_alone f (kept_alone g Example.abcd)
  ∧ kept_alone f (kept_alone f Example.abcd) = kept_alone f Example.abcd.
Proof. by apply filters_commute_idempotent. Defined.

Lemma FilterStack_apply_narrows_base_Object :
  ∃ out out_base,
    value_of (FilterStack_apply Example.safe_filter Example.Object
                Example.object_properties) = Some out
    ∧ value_of (FilterStack_apply Example.safe_filter Example.ID
                  Example.object_properties) = Some out_base
    ∧ out `sublist_of` out_base.
Proof.
  edestruct (FilterStack_apply_narrows_base Example.safe_filter Example.Object
               Example.ID Example.object_properties) as (out_base & Hbase & _ & Hsub).
  - reflexivity.
  - vm_compute. reflexivity.
  - eexists _, out_base. split; [vm_compute; reflexivity|]. by split.
Defined.

Lemma FilterStack_append_narrows_BlendData :
  ∃ out out_before,
    value_of (FilterStack_apply Example.safe_filter Example.BlendDataRna
                Example.blenddata_properties) = Some out
    ∧ value_of (FilterStack_apply
                  (FilterStack_append
                     (FilterStack_append [] Example.default_exclusions)
                     Example.safe_exclusions)
                  Example.BlendDataRna Example.blenddata_properties)
      = Some out_before
    ∧ out `sublist_of` out_before.
Proof.
  edestruct (FilterStack_append_narrows
               (FilterStack_append
                  (FilterStack_append [] Example.default_exclusions)
                  Example.safe_exclusions)
               Example.safe_blenddata Example.BlendDataRna
               Example.blenddata_properties) as (out_before & Hbefore & _ & Hsub).
  - vm_compute. reflexivity.
  - eexists _, out_before. split; [vm_compute; reflexivity|]. by split.
Defined.

Lemma FilterStack_layer_order_reversed :
  value_of (FilterStack_apply Example.safe_filter Example.BlendDataRna
              Example.blenddata_properties)
  = value_of (FilterStack_apply (reverse Example.safe_filter) Example.BlendDataRna
                Example.blenddata_properties).
Proof. apply FilterStack_layer_order. symmetry. apply reverse_Permutation. Defined.

Lemma properties_in_host_order_Object :
  ∃ w items self',
    properties Example.safe_properties None (Some Example.Object)
    = (w, inr (items, self'))
    ∧ NoDup items.*1
    ∧ items.*2 `sublist_of` Example.object_properties.
Proof.
  edestruct (properties_in_host_order Example.safe_properties Example.Object)
    as (Hnd & _ & Horder).
  - done.
  - vm_compute. reflexivity.
  - destruct Horder as (_ & Hsub & _).
    { apply (bool_decide_unpack _). by vm_compute. }
    eexists _, _, _. split; [vm_compute; reflexivity|]. by split.
Defined.

Lemma default_stacks_on_BlendData_small :
  ∃ w, FilterStack_apply safe_filter BlendData Example.blenddata_properties
       = (w, inr [ Example.collection_prop "cameras" Example.Camera;
                   Example.collection_prop "scenes" Example.Scene ]).
Proof.
  destruct (default_stacks_on_BlendData Example.blenddata_properties)
    as [_ [w Hsafe]].
  - reflexivity.
  - apply (bool_decide_unpack _). by vm_compute.
  - exists w. rewrite Hsafe. by vm_compute.
Defined.

Lemma safe_properties_unhandled_brushes :
  ∃ w names self',
    unhandled_bpy_data_collection_names safe_properties = (w, inr (names, self'))
    ∧ "brushes" ∈ names.
Proof.
  destruct safe_properties_unhandled as (w & names & self' & Hrun & _ & Hother).
  - reflexivity.
  - apply (bool_decide_unpack _). by vm_compute.
  - exists w, names, self'. split; [done|]. apply Hother.
    + apply (bool_decide_unpack _). by vm_compute.
    + apply (bool_decide_unpack _). by vm_compute.
Defined.

End ConcreteMore.

(** ** The depsgraph handler *)

Section HandlerFacts.
Import Handlers.

Lemma calls_of_app (xs ys : list Event) :
  calls_of (xs ++ ys) = calls_of xs ++ calls_of ys.
Proof. apply List.filter_app. Qed.

Lemma calls_of_debug (f : Datablock → list Arg) (msg : string) (l : list Datablock) :
  calls_of ((λ d, LogDebug msg (f d)) <$> l) = [].
Proof. by induction l. Qed.

Lemma calls_of_info (f : Datablock → list Arg) (msg : string) (l : list Datablock) :
  calls_of ((λ d, LogInfo msg (f d)) <$> l) = [].
Proof. by induction l. Qed.

Lemma calls_of_log_updates (blender : Blender) :
  calls_of match depsgraph_updates blender with
           | [] => []
           | _ => LogDebug "Current dg updates ..." []
                  :: ((λ update, LogDebug " ......%s" [ArgDatablock update])
                      <$> depsgraph_updates blender)
           end = [].
Proof.
  destruct (depsgraph_updates blender) as [|d l] eqn:Hd; [done|].
  unfold calls_of. simpl List.filter at 1. cbn [is_call].
  apply (calls_of_debug (λ d, [ArgDatablock d])).
Qed.



(** X15: a run that is not skipped calls, in this order and once each:
    [append_delayed_updates] if something is set aside, [diff], [update]
    with the updates that are left and with [process_delayed_updates]
    true exactly when nothing is set aside, then the sends of the
    creations, the removals, the renames and the updates of the changeset
    that [update] returned. *)
Theorem handler_calls_in_order (blender : Blender) (share_data : ShareData) :
  negb (pending_test_update share_data) && skip_next_depsgraph_update share_data
  = false →
  let selected := default [] (selected_objects blender) in
  let all_updates : gset Datablock := list_to_set (depsgraph_updates blender) in
  let delayed := delayed_of blender selected all_updates in
  let process := bool_decide (delayed = ∅) in
  let changeset := proxy_update blender (all_updates ∖ delayed) process in
  calls_of (send_scene_data_to_server blender share_data).2
  = (if process then [] else [AppendDelayedUpdates delayed])
    ++ [ Diff; Update (all_updates ∖ delayed) process;
         SendDataCreations (creations changeset);
         SendDataRemovals (removals changeset);
         SendDataRenames (renames changeset);
         SendDataUpdates (Handlers.updates changeset) ].
Proof.
  intros Hskip selected all_updates delayed process changeset.
  unfold send_scene_data_to_server. rewrite Hskip. cbn [snd].
  rewrite !calls_of_app, calls_of_log_updates.
  fold selected. fold all_updates. fold delayed. fold process.
  destruct process.
  - done.
  - unfold calls_of at 2. simpl List.filter at 1. cbn [is_call].
    fold (calls_of ((λ update, LogInfo "... %s" [ArgDatablock update])
                    <$> elements delayed)).
    by rewrite (calls_of_info (λ d, [ArgDatablock d])).
Qed.


End HandlerFacts.

Section HandlerConcrete.
Import Handlers.

(** A test update in an edit session, with the skip flag set: object 1 and
    its mesh 3 are set aside, object 2 goes on. *)
Lemma handler_calls_in_order_edit_session :
  calls_of (send_scene_data_to_server edit_session
              {| skip_next_depsgraph_update := true;
                 pending_test_update := true |}).2
  = [ AppendDelayedUpdates {[1; 3]}; Diff; Update {[2]} false;
      SendDataCreations []; SendDataRemovals []; SendDataRenames [];
      SendDataUpdates [2] ].
Proof.
  rewrite handler_calls_in_order by reflexivity.
  vm_compute. reflexivity.
Defined.

End HandlerConcrete.

(** ** Matching by type *)

Section MatchFacts.
Context `{!Host}.

Lemma matches_spec (types : list BlRna) (p : Property) :
  matches types p
  ↔ one_of (bl_rna p) types ∨ ∃ t, t ∈ types ∧ is_pointer_to p t = true.
Proof.
  unfold matches. rewrite orb_True, !Is_true_true, rna_in_one_of.
  apply or_iff_compat_l. rewrite existsb_exists. split.
  - intros (b & Hb & Hid). apply list_elem_of_In in Hb.
    apply list_elem_of_fmap in Hb as (t & -> & Ht). by exists t.
  - intros (t & Ht & Hptr). exists true. split; [|done].
    apply list_elem_of_In, list_elem_of_fmap. by exists t.
Qed.

Lemma filter_sublist_impl {A} (P Q : A → Prop) `{!∀ x, Decision (P x)}
    `{!∀ x, Decision (Q x)} (l : list A) :
  (∀ x, P x → Q x) → filter P l `sublist_of` filter Q l.
Proof.
  intros HPQ. induction l as [|x l IH]; [done|].
  rewrite !filter_cons. destruct (decide (P x)) as [HP|HP].
  - rewrite decide_True by auto. by apply sublist_skip.
  - destruct (decide (Q x)); [by apply sublist_cons|done].
Qed.

(** X17: a type filter matches a property whose own [bl_rna] is one of its
    types, and also one that [is_pointer_to] one of its types; so with
    more types [TypeFilterIn] keeps at least as much and [TypeFilterOut]
    at most as much, in the same order. *)
Theorem TypeFilter_matches_pointers (types types' : list BlRna)
    (l : list Property) :
  types ⊆ types' →
  (∀ p, matches types p
        ↔ one_of (bl_rna p) types ∨ ∃ t, t ∈ types ∧ is_pointer_to p t = true)
  ∧ TypeFilterIn_apply types l `sublist_of` TypeFilterIn_apply types' l
  ∧ TypeFilterOut_apply types' l `sublist_of` TypeFilterOut_apply types l.
Proof.
  intros Hsub.
  assert (∀ p, matches types p → matches types' p) as Hmono.
  { intros p. rewrite !matches_spec. unfold one_of.
    intros [(t & Ht & Hk)|(t & Ht & Hp)]; [left|right]; exists t; auto. }
  split; [apply matches_spec|]. split.
  - by apply filter_sublist_impl.
  - apply filter_sublist_impl. intros p. rewrite !negb_True. auto.
Qed.

End MatchFacts.

Section MatchConcrete.
#[local] Existing Instance Example.host.

Lemma TypeFilter_matches_pointers_ID :
  TypeFilterOut_apply [Example.ID; Example.Object] Example.object_properties
  `sublist_of` TypeFilterOut_apply [Example.ID] Example.object_properties.
Proof.
  apply (TypeFilter_matches_pointers [Example.ID] [Example.ID; Example.Object]).
  intros t Ht. apply list_elem_of_singleton in Ht as ->. apply list_elem_of_here.
Defined.

End MatchConcrete.
